(** * gazebo/Server.cc: the server orchestration layer

    A shallow embedding of [gazebo::Server] (src/gazebo/Server.cc): the
    control-message queue, the dispatch of control messages, the world
    reload ([Server::OpenWorld]) and the main loop ([Server::Run]).

    The server is a sequence of calls on its collaborators (master,
    plugin subsystem, sensors, physics, sdf parser, transport).  Every
    such call is recorded, in program order, in a trace; the part of the
    collaborators' state the server's behaviour depends on (the world
    registry, the files the parser reads) is carried in the state.  A
    call through an absent handle stops the computation with a fault. *)

From Stdlib Require Import String List Bool Arith Lia.
Import ListNotations.
Local Open Scope string_scope.
Local Open Scope list_scope.

(** ** Messages *)

(** [msgs::ServerControl]: every field is optional. *)
Record ServerControl := mkServerControl {
  sc_save_world_name : option string;
  sc_save_filename   : option string;
  sc_new_world       : option bool;
  sc_open_filename   : option string
}.

(** The generated accessors: [has_x()] tests presence, [x()] reads the
    field or its default. *)
Definition is_set {A} (o : option A) : bool :=
  match o with Some _ => true | None => false end.

Definition or_default {A} (d : A) (o : option A) : A :=
  match o with Some a => a | None => d end.

Definition has_save_world_name (m : ServerControl) := is_set (sc_save_world_name m).
Definition has_save_filename (m : ServerControl) := is_set (sc_save_filename m).
Definition has_new_world (m : ServerControl) := is_set (sc_new_world m).
Definition has_open_filename (m : ServerControl) := is_set (sc_open_filename m).
Definition save_world_name (m : ServerControl) := or_default "" (sc_save_world_name m).
Definition save_filename (m : ServerControl) := or_default "" (sc_save_filename m).
Definition new_world (m : ServerControl) := or_default false (sc_new_world m).
Definition open_filename (m : ServerControl) := or_default "" (sc_open_filename m).

(** [msgs::WorldModify], the lifecycle notification. *)
Record WorldModify := mkWorldModify {
  wm_world_name : option string;
  wm_remove     : option bool;
  wm_create     : option bool
}.

Definition WorldModify_new : WorldModify := mkWorldModify None None None.
Definition set_world_name (n : string) (m : WorldModify) : WorldModify :=
  mkWorldModify (Some n) (wm_remove m) (wm_create m).
Definition set_remove (b : bool) (m : WorldModify) : WorldModify :=
  mkWorldModify (wm_world_name m) (Some b) (wm_create m).
Definition set_create (b : bool) (m : WorldModify) : WorldModify :=
  mkWorldModify (wm_world_name m) (wm_remove m) (Some b).

(** ** World descriptions *)

(** The [<world>] element of a description: the name it gives the
    world, the models it declares and, when the physics subsystem
    rejects it, the message of the [common::Exception] that
    [physics::load_world] raises ([Server::LoadImpl] catches it). *)
Record Element := mkElement {
  elem_name   : string;
  elem_models : list string;
  elem_error  : option string
}.

(** A parsed description; [GetElement("world")] on its root may find no
    world element ([Server::LoadImpl] tests the result). *)
Record SDF := mkSDF { root_world : option Element }.

(** What a path holds: something the parser rejects, or a description. *)
Inductive FileData :=
| Unparseable
| Description (d : SDF).

Definition Disk := list (string * FileData).

Fixpoint find_file (name : string) (d : Disk) : option FileData :=
  match d with
  | [] => None
  | (n, c) :: d' => if String.eqb n name then Some c else find_file name d'
  end.

(** ** The world registry *)

(** A live world.  [world_id] tells instances apart. *)
Record World := mkWorld {
  world_id      : nat;
  world_name    : string;
  world_models  : list string;
  world_running : bool
}.

(** Modelled from the spec: the physics subsystem (physics::create_world,
    load_world, get_world, stop_worlds, remove_worlds, ...) is not part of
    the source at hand.  The registry holds the live worlds; a world it
    constructs gets an instance number never used before, and its name
    when a description is loaded into it. *)
Record Physics := mkPhysics {
  g_worlds : list World;
  g_next   : nat
}.

(** A [physics::WorldPtr]: [None] is the empty pointer. *)
Definition WorldPtr := option nat.

(** ** Calls on collaborators *)

Inductive Event :=
| MasterInit | MasterRunThread | MasterStop
| GazeboLoad | GazeboInit | GazeboRun | GazeboStop
| SensorsLoad | SensorsInit | SensorsRunOnce (force : bool)
| SensorsStop | SensorsRemove
| PhysicsLoad | PhysicsInitWorlds | PhysicsRunWorlds
| PhysicsStopWorlds | PhysicsRemoveWorlds
| CreateWorld (w : nat)
| LoadWorld (w : nat)
| InitWorld (w : nat)
| RunWorld (w : nat)
| GetWorld (name : string)
| WorldSave (w : nat) (filename : string)
| SdfInit
| SdfReadFile (filename : string)
| NodeInit (ns : string)
| Subscribe (topic : string)
| Advertise (topic : string)
| Publish (m : WorldModify)
| ClearBuffers
| MSleep (ms : nat)
| GzErr (text : string).

(** What is done to the message list and to the mutex that guards it. *)
Inductive Access :=
| Lock        (* scoped_lock constructed on *this->receiveMutex *)
| Unlock      (* the scoped_lock goes out of scope *)
| PushBack    (* controlMsgs.push_back *)
| Iterate     (* an element of controlMsgs is reached through an iterator *)
| Clear.      (* controlMsgs.clear *)

(** ** Abnormal ends *)

Inductive Abort :=
| NullDeref                   (* a member is reached through an empty pointer *)
| Exception (what : string).  (* a common::Exception nothing catches *)

(** What neither the source nor the spec settles about the physics
    subsystem: what [load_world] does when it is handed an empty element
    pointer (it returns, or it ends in some way without returning). *)
Record Library := mkLibrary {
  load_empty : option Abort    (* [None]: the call returns *)
}.

(** ** Server state *)

Record State := mkState {
  stop         : bool;                  (* Server::stop *)
  controlMsgs  : list ServerControl;    (* this->controlMsgs, front first *)
  queue_log    : list Access;           (* uses of receiveMutex and controlMsgs *)
  phys         : Physics;               (* the world registry *)
  sdf_schema   : bool;                  (* sdf::init finds its schema *)
  disk         : Disk;
  trace        : list Event;            (* oldest first *)
  masterp      : bool;                  (* this->master points to a Master *)
  lib          : Library
}.

Definition set_stop (x : bool) (s : State) : State :=
  mkState x (controlMsgs s) (queue_log s) (phys s) (sdf_schema s) (disk s) (trace s)
    (masterp s) (lib s).
Definition set_controlMsgs (x : list ServerControl) (s : State) : State :=
  mkState (stop s) x (queue_log s) (phys s) (sdf_schema s) (disk s) (trace s)
    (masterp s) (lib s).
Definition set_queue_log (x : list Access) (s : State) : State :=
  mkState (stop s) (controlMsgs s) x (phys s) (sdf_schema s) (disk s) (trace s)
    (masterp s) (lib s).
Definition set_phys (x : Physics) (s : State) : State :=
  mkState (stop s) (controlMsgs s) (queue_log s) x (sdf_schema s) (disk s) (trace s)
    (masterp s) (lib s).
Definition set_disk (x : Disk) (s : State) : State :=
  mkState (stop s) (controlMsgs s) (queue_log s) (phys s) (sdf_schema s) x (trace s)
    (masterp s) (lib s).
Definition set_trace (x : list Event) (s : State) : State :=
  mkState (stop s) (controlMsgs s) (queue_log s) (phys s) (sdf_schema s) (disk s) x
    (masterp s) (lib s).

Definition set_masterp (x : bool) (s : State) : State :=
  mkState (stop s) (controlMsgs s) (queue_log s) (phys s) (sdf_schema s) (disk s)
    (trace s) x (lib s).

(** ** A state monad with faults *)

Inductive Result (A : Type) :=
| Ok (a : A) (s : State)
| Fault (why : Abort) (s : State).

Arguments Ok {A} a s.
Arguments Fault {A} why s.

Definition M (A : Type) := State -> Result A.

Definition ret {A} (a : A) : M A := fun s => Ok a s.

Definition bind {A B} (c : M A) (k : A -> M B) : M B :=
  fun s => match c s with
           | Ok a s' => k a s'
           | Fault w s' => Fault w s'
           end.

Definition fault {A} (w : Abort) : M A := fun s => Fault w s.

(** [gzthrow(msg)]: a [common::Exception] is raised. *)
Definition gzthrow {A} (msg : string) : M A := fault (Exception msg).

(** [try { c } catch (common::Exception &e) { h e }]. *)
Definition try_catch {A} (c : M A) (h : string -> M A) : M A :=
  fun s => match c s with
           | Fault (Exception e) s' => h e s'
           | r => r
           end.

Declare Scope server_scope.
Delimit Scope server_scope with server.
Notation "x <- c ;; k" := (bind c (fun x => k))
  (at level 61, c at next level, right associativity) : server_scope.
Notation "c ;; k" := (bind c (fun _ => k))
  (at level 61, right associativity) : server_scope.
Local Open Scope server_scope.

Definition final {A} (r : Result A) : State :=
  match r with Ok _ s => s | Fault _ s => s end.

Definition emit (e : Event) : M unit :=
  fun s => Ok tt (set_trace (trace s ++ [e]) s).

Definition gzerr (text : string) : M unit := emit (GzErr text).

Definition touch (a : Access) : M unit :=
  fun s => Ok tt (set_queue_log (queue_log s ++ [a]) s).

(** The [\n] that ends the logged lines. *)
Definition endl : string := String (Ascii.ascii_of_nat 10) EmptyString.

(** ** Collaborators *)

(** Modelled from the spec: the master (the spec's Broker), the plugin
    subsystem, the sensors, the transport and the clock are not part of
    the source at hand.  A call on one of them is recorded and returns. *)

Module master.
Definition Init : M unit := emit MasterInit.
Definition RunThread : M unit := emit MasterRunThread.
Definition Stop : M unit := emit MasterStop.
End master.

Module gazebo.
Definition load : M unit := emit GazeboLoad.
Definition init : M unit := emit GazeboInit.
Definition run : M unit := emit GazeboRun.
Definition stop : M unit := emit GazeboStop.
End gazebo.

Module sensors.
Definition load : M unit := emit SensorsLoad.
Definition init : M unit := emit SensorsInit.
Definition run_once (force : bool) : M unit := emit (SensorsRunOnce force).
Definition stop : M unit := emit SensorsStop.
Definition remove_sensors : M unit := emit SensorsRemove.
End sensors.

Module transport.
Definition node_Init (ns : string) : M unit := emit (NodeInit ns).
Definition node_Subscribe (topic : string) : M unit := emit (Subscribe topic).
Definition node_Advertise (topic : string) : M unit := emit (Advertise topic).
Definition Publish (m : WorldModify) : M unit := emit (Publish m).
Definition clear_buffers : M unit := emit ClearBuffers.
End transport.

Module common.
Definition Time_MSleep (ms : nat) : M unit := emit (MSleep ms).
End common.

(** Modelled from the spec: the world description parser ([sdf::init],
    [sdf::readFile]) is not part of the source at hand.  It reads the
    disk and changes nothing; it answers [false] when its schema is
    missing, when the path holds nothing, or when what it holds is not
    a description. *)
Module sdf.
Definition init : M bool :=
  emit SdfInit ;; fun s => Ok (sdf_schema s) s.

Definition parse (filename : string) (d : Disk) : option SDF :=
  match find_file filename d with
  | Some (Description x) => Some x
  | _ => None
  end.

(** [None] stands for the [false] of [sdf::readFile], [Some d] for
    [true] with the description filled in. *)
Definition readFile (filename : string) : M (option SDF) :=
  emit (SdfReadFile filename) ;; fun s => Ok (parse filename (disk s)) s.
End sdf.

(** Modelled from the spec: the operations of the physics subsystem on
    the world registry, which are not part of the source at hand.  A
    lookup by name finds the world or yields the empty pointer; stopping
    and running set the worlds' threads; removing empties the registry;
    a world is saved by writing its description at the path; a
    description the subsystem rejects makes the loader raise.  What the
    loader does with an empty element pointer is left to the [Library]
    of the state. *)
Module physics.
Definition modify (f : Physics -> Physics) : M unit :=
  fun s => Ok tt (set_phys (f (phys s)) s).

Definition on_world (w : nat) (f : World -> World) (p : Physics) : Physics :=
  mkPhysics
    (map (fun x => if Nat.eqb (world_id x) w then f x else x) (g_worlds p))
    (g_next p).

Definition set_running (b : bool) (x : World) : World :=
  mkWorld (world_id x) (world_name x) (world_models x) b.

Definition set_models (l : list string) (x : World) : World :=
  mkWorld (world_id x) (world_name x) l (world_running x).

(** What loading an element makes of a world: it takes the element's
    name and models. *)
Definition loaded (e : Element) (x : World) : World :=
  mkWorld (world_id x) (elem_name e) (elem_models e) (world_running x).

Definition find_world (name : string) (p : Physics) : option World :=
  find (fun x => String.eqb (world_name x) name) (g_worlds p).

Definition find_id (w : nat) (p : Physics) : option World :=
  find (fun x => Nat.eqb (world_id x) w) (g_worlds p).

Definition load : M unit := emit PhysicsLoad.
Definition init_worlds : M unit := emit PhysicsInitWorlds.

Definition run_worlds : M unit :=
  emit PhysicsRunWorlds ;;
  modify (fun p => mkPhysics (map (set_running true) (g_worlds p)) (g_next p)).

Definition stop_worlds : M unit :=
  emit PhysicsStopWorlds ;;
  modify (fun p => mkPhysics (map (set_running false) (g_worlds p)) (g_next p)).

Definition remove_worlds : M unit :=
  emit PhysicsRemoveWorlds ;;
  modify (fun p => mkPhysics [] (g_next p)).

(** The pointer to the named world, empty when no world has the name. *)
Definition get_world (name : string) : M WorldPtr :=
  emit (GetWorld name) ;;
  fun s => Ok (option_map world_id (find_world name (phys s))) s.

Definition create_world : M WorldPtr :=
  fun s =>
    let w := g_next (phys s) in
    (emit (CreateWorld w) ;;
     modify (fun p => mkPhysics (g_worlds p ++ [mkWorld w "" [] false])
                                (S (g_next p))) ;;
     ret (Some w)) s.

(** The loader, called through the world pointer: it raises on an
    element the subsystem rejects; on an empty element pointer it does
    what the library does. *)
Definition load_world (world : WorldPtr) (elem : option Element) : M unit :=
  match world with
  | Some w =>
      emit (LoadWorld w) ;;
      match elem with
      | Some e =>
          match elem_error e with
          | None => modify (on_world w (loaded e))
          | Some what => fault (Exception what)
          end
      | None =>
          fun s => match load_empty (lib s) with
                   | None => Ok tt s
                   | Some w' => Fault w' s
                   end
      end
  | None => fault NullDeref
  end.

Definition init_world (world : WorldPtr) : M unit :=
  match world with
  | Some w => emit (InitWorld w)
  | None => fault NullDeref
  end.

Definition run_world (world : WorldPtr) : M unit :=
  match world with
  | Some w => emit (RunWorld w) ;; modify (on_world w (set_running true))
  | None => fault NullDeref
  end.

(** [world->Save(filename)]: the world's description is written at the
    path. *)
Definition World_Save (world : WorldPtr) (filename : string) : M unit :=
  match world with
  | Some w =>
      emit (WorldSave w filename) ;;
      fun s =>
        match find_id w (phys s) with
        | Some x =>
            Ok tt (set_disk ((filename,
                              Description
                                (mkSDF (Some (mkElement (world_name x)
                                                (world_models x) None))))
                             :: disk s) s)
        | None => Ok tt s
        end
  | None => fault NullDeref
  end.
End physics.

(** ** Server *)

(** [Server::Server] with [bool Server::stop = true]: nothing is loaded,
    nothing is queued.  The constructor does not assign [this->master]:
    [m] tells whether what it holds passes for a pointer to a Master. *)
Definition Server_new (l : Library) (m : bool) (schema : bool) (d : Disk) : State :=
  mkState true [] [] (mkPhysics [] 0) schema d [] m l.

(** [this->master = new gazebo::Master()]. *)
Definition new_Master : M unit := fun s => Ok tt (set_masterp true s).

(** [Server::LoadImpl]. *)
Definition LoadImpl (_elem : SDF) : M bool :=
  new_Master ;;
  master.Init ;;
  master.RunThread ;;
  gazebo.load ;;
  sensors.load ;;
  physics.load ;;
  let worldElem := root_world _elem in
  match worldElem with
  | Some _ =>
      world <- physics.create_world ;;
      try_catch (physics.load_world world worldElem)
        (fun e => gzthrow ("Failed to load the World" ++ endl ++ e))
  | None => ret tt
  end ;;
  transport.node_Init "/gazebo" ;;
  transport.node_Subscribe "/gazebo/server/control" ;;
  transport.node_Advertise "/gazebo/world/modify" ;;
  gazebo.run ;;
  ret true.

(** [Server::LoadFile]. *)
Definition LoadFile (_filename : string) : M bool :=
  fun s =>
    match find_file _filename (disk s) with
    | None =>
        (gzerr ("Could not open file[" ++ _filename ++ "]" ++ endl) ;; ret false) s
    | Some _ =>
        (ok <- sdf.init ;;
         if negb ok then gzerr ("Unable to initialize sdf" ++ endl) ;; ret false
         else
           r <- sdf.readFile _filename ;;
           match r with
           | None =>
               gzerr ("Unable to read sdf file[" ++ _filename ++ "]" ++ endl) ;;
               ret false
           | Some d => LoadImpl d
           end) s
    end.

(** [Server::Init]. *)
Definition Init : M unit :=
  gazebo.init ;;
  sensors.init ;;
  physics.init_worlds ;;
  fun s => Ok tt (set_stop false s).

(** [Server::SigInt] and [Server::Stop]. *)
Definition SigInt : M unit := fun s => Ok tt (set_stop true s).
Definition Stop : M unit := fun s => Ok tt (set_stop true s).

(** [Server::OnControl]. *)
Definition OnControl (_msg : ServerControl) : M unit :=
  touch Lock ;;
  touch PushBack ;;
  (fun s => Ok tt (set_controlMsgs (controlMsgs s ++ [_msg]) s)) ;;
  touch Unlock.

(** [Server::OpenWorld]. *)
Definition OpenWorld (_filename : string) : M bool :=
  ok <- sdf.init ;;
  if negb ok then gzerr ("Unable to initialize sdf" ++ endl) ;; ret false
  else
    r <- sdf.readFile _filename ;;
    match r with
    | None =>
        gzerr ("Unable to read sdf file[" ++ _filename ++ "]" ++ endl) ;;
        ret false
    | Some d =>
        let worldMsg := WorldModify_new in
        let worldMsg := set_world_name "default" worldMsg in
        let worldMsg := set_remove true worldMsg in
        transport.Publish worldMsg ;;
        physics.stop_worlds ;;
        physics.remove_worlds ;;
        sensors.remove_sensors ;;
        transport.clear_buffers ;;
        let worldElem := root_world d in
        world <- physics.create_world ;;
        physics.load_world world worldElem ;;
        physics.init_world world ;;
        physics.run_world world ;;
        let worldMsg := set_world_name "default" worldMsg in
        let worldMsg := set_remove false worldMsg in
        let worldMsg := set_create true worldMsg in
        transport.Publish worldMsg ;;
        ret true
    end.

(** The body of the loop of [Server::ProcessControlMsgs], for the message
    the iterator points at. *)
Definition process_msg (m : ServerControl) : M unit :=
  if has_save_world_name m then
    world <- physics.get_world (save_world_name m) ;;
    if has_save_filename m then physics.World_Save world (save_filename m)
    else gzerr ("No filename specified." ++ endl)
  else if has_new_world m && new_world m then
    _ <- OpenWorld "worlds/empty.world" ;; ret tt
  else if has_open_filename m then
    _ <- OpenWorld (open_filename m) ;; ret tt
  else ret tt.

(** The [for] loop from [begin()] to [end()]. *)
Fixpoint for_each (l : list ServerControl) : M unit :=
  match l with
  | [] => ret tt
  | m :: l' => touch Iterate ;; process_msg m ;; for_each l'
  end.

(** [Server::ProcessControlMsgs]. *)
Definition ProcessControlMsgs : M unit :=
  fun s =>
    (for_each (controlMsgs s) ;;
     touch Clear ;;
     fun s' => Ok tt (set_controlMsgs [] s')) s.

(** *** The main loop *)

(** What reaches the server from other threads: the interrupt signal,
    and control messages handed to [OnControl] by the transport. *)
Inductive Input :=
| Interrupt
| Control (msg : ServerControl).

Definition deliver (i : Input) : M unit :=
  match i with
  | Interrupt => SigInt
  | Control msg => OnControl msg
  end.

Fixpoint deliver_all (l : list Input) : M unit :=
  match l with
  | [] => ret tt
  | i :: l' => deliver i ;; deliver_all l'
  end.

(** The [while (!this->stop)] loop.  [script] lists, for each iteration,
    what arrives from other threads between the test of the flag that
    lets the iteration in and the next test, taken at the end of the
    iteration (what a message that arrives while the list is being
    drained does is the matter of [Interleaving]).  [None]: the script has run out
    and the loop is still turning. *)
Fixpoint while_not_stop (script : list (list Input)) (s : State)
  : option (Result unit) :=
  if stop s then Some (Ok tt s)
  else
    match script with
    | [] => None
    | arrivals :: script' =>
        match (ProcessControlMsgs ;;
               sensors.run_once true ;;
               common.Time_MSleep 1 ;;
               deliver_all arrivals) s with
        | Ok _ s' => while_not_stop script' s'
        | Fault w s' => Some (Fault w s')
        end
    end.

(** [this->master->Stop()]: the call goes through the pointer. *)
Definition master_Stop : M unit :=
  fun s => if masterp s then master.Stop s else Fault NullDeref s.

(** [Server::Run].  The head of the script is what arrives before the
    loop first tests the flag, the rest is the script of the loop. *)
Definition Run (script : list (list Input)) (s : State) : option (Result unit) :=
  if stop s then Some (Ok tt s)
  else
    match (sensors.run_once true ;;
           physics.run_worlds ;;
           deliver_all (hd [] script)) s with
    | Ok _ s1 =>
        match while_not_stop (tl script) s1 with
        | Some (Ok _ s2) =>
            Some ((physics.stop_worlds ;;
                   sensors.stop ;;
                   gazebo.stop ;;
                   master_Stop) s2)
        | other => other
        end
    | Fault w s1 => Some (Fault w s1)
    end.

(** * Notions used in the statements *)

(** The lifecycle notifications among the recorded calls. *)
Fixpoint notifications (t : list Event) : list WorldModify :=
  match t with
  | [] => []
  | Publish m :: t' => m :: notifications t'
  | _ :: t' => notifications t'
  end.

(** The replacement source fails to parse: [sdf::init] or
    [sdf::readFile] answers [false]. *)
Definition parse_fails (filename : string) (s : State) : Prop :=
  sdf_schema s = false \/ sdf.parse filename (disk s) = None.

(** The replacement source is valid: it parses, and the description
    holds a world element. *)
Definition valid_source (filename : string) (s : State) : option Element :=
  if sdf_schema s then
    match sdf.parse filename (disk s) with
    | Some d => root_world d
    | None => None
    end
  else None.

(** Every live world carries an instance number below the next one the
    registry hands out. *)
Definition registry_ok (p : Physics) : bool :=
  forallb (fun x => Nat.ltb (world_id x) (g_next p)) (g_worlds p).

Ltac run_server :=
  unfold bind, ret, fault, gzerr, emit, touch, physics.modify; simpl.

(** Reduction of a straight-line run down to the record of its final
    state, without unfolding anything but the plumbing. *)
Ltac state_norm :=
  cbv beta iota delta
    [set_stop set_controlMsgs set_queue_log set_phys set_disk set_trace
     set_masterp
     stop controlMsgs queue_log phys sdf_schema disk trace masterp lib
     g_worlds g_next physics.on_world].

Ltac exec_server :=
  cbv beta iota delta [bind ret fault gzerr emit touch physics.modify negb];
  state_norm.

(** The two notifications of a reload. *)
Definition removal_notice : WorldModify :=
  mkWorldModify (Some "default") (Some true) None.
Definition creation_notice : WorldModify :=
  mkWorldModify (Some "default") (Some false) (Some true).

(** The calls of a reload that goes through, [w] being the instance
    number of the world it builds. *)
Definition reload_calls (filename : string) (w : nat) : list Event :=
  [SdfInit; SdfReadFile filename;
   Publish removal_notice;
   PhysicsStopWorlds; PhysicsRemoveWorlds; SensorsRemove; ClearBuffers;
   CreateWorld w; LoadWorld w; InitWorld w; RunWorld w;
   Publish creation_notice].

(** The state a reload that goes through ends in. *)
Definition reloaded (filename : string) (e : Element) (s : State) : State :=
  let w := g_next (phys s) in
  set_trace (trace s ++ reload_calls filename w)
    (set_phys (mkPhysics [mkWorld w (elem_name e) (elem_models e) true] (S w)) s).

(** The calls of a reload up to the loader. *)
Definition teardown_calls (filename : string) (w : nat) : list Event :=
  [SdfInit; SdfReadFile filename; Publish removal_notice;
   PhysicsStopWorlds; PhysicsRemoveWorlds; SensorsRemove; ClearBuffers;
   CreateWorld w; LoadWorld w].

(** A reload whose loader does not return: the old worlds are gone and
    the world just created is blank. *)
Definition torn_down (filename : string) (s : State) : State :=
  let w := g_next (phys s) in
  set_trace (trace s ++ teardown_calls filename w)
    (set_phys (mkPhysics [mkWorld w "" [] false] (S w)) s).

(** A reload from a description without a world element, when the loader
    returns on the empty element: the new world is blank, and runs. *)
Definition reloaded_blank (filename : string) (s : State) : State :=
  let w := g_next (phys s) in
  set_trace (trace s ++ reload_calls filename w)
    (set_phys (mkPhysics [mkWorld w "" [] true] (S w)) s).

(** [N] calls of [OnControl], in the order of arrival. *)
Fixpoint enqueue (msgs : list ServerControl) : M unit :=
  match msgs with
  | [] => ret tt
  | m :: msgs' => OnControl m ;; enqueue msgs'
  end.

Definition enqueued (msgs : list ServerControl) (s : State) : State :=
  set_queue_log
    (queue_log s ++ concat (map (fun _ => [Lock; PushBack; Unlock]) msgs))
    (set_controlMsgs (controlMsgs s ++ msgs) s).

(** The save action, as a function of the two fields it reads. *)
Definition save_action (name : string) (filename : option string) : M unit :=
  world <- physics.get_world name ;;
  match filename with
  | Some f => physics.World_Save world f
  | None => gzerr ("No filename specified." ++ endl)
  end.

(** The reload action, as a function of its source. *)
Definition reload_action (filename : string) : M unit :=
  _ <- OpenWorld filename ;; ret tt.

Definition asks_new_world (m : ServerControl) : bool :=
  has_new_world m && new_world m.

(** What the save action does, by the outcome of the lookup. *)
Definition looked_up (name : string) (s : State) : State :=
  set_trace (trace s ++ [GetWorld name]) s.

(** A small installation: the stock empty world and a file the parser
    rejects. *)
Definition example_disk : Disk :=
  [("worlds/empty.world",
    Description (mkSDF (Some (mkElement "default" ["ground_plane"] None))));
   ("broken.world", Unparseable)].

(** A physics library whose loader reads through the element pointer. *)
Definition example_library : Library := mkLibrary (Some NullDeref).

(** The server once [ParseArgs] has loaded the empty world and called
    [Init]. *)
Definition running_server : State :=
  final ((_ <- LoadFile "worlds/empty.world" ;; Init)
           (Server_new example_library false true example_disk)).

(** The same server on an installation that also has a description the
    physics subsystem rejects and one whose world is named "arena". *)
Definition rejected_element : Element :=
  mkElement "default" ["tower"] (Some "joint without parent").
Definition arena_element : Element := mkElement "arena" ["wall"] None.

Definition reload_disk : Disk :=
  ("rejected.world", Description (mkSDF (Some rejected_element))) ::
  ("arena.world", Description (mkSDF (Some arena_element))) :: example_disk.

Definition reload_server : State := set_disk reload_disk running_server.

Definition save_request (name : string) (filename : option string) : ServerControl :=
  mkServerControl (Some name) filename None None.
Definition new_world_request : ServerControl :=
  mkServerControl None None (Some true) None.
Definition open_request (filename : string) : ServerControl :=
  mkServerControl None None None (Some filename).

(** What is left of [ProcessControlMsgs] once the iterator stands before
    [rest]: the remaining iterations, then [clear()]. *)
Definition finish_batch (rest : list ServerControl) : M unit :=
  for_each rest ;;
  touch Clear ;;
  fun s' => Ok tt (set_controlMsgs [] s').

(** Every use of the message list lies between a [Lock] and the
    [Unlock] that follows it. *)
Fixpoint guarded_from (held : bool) (log : list Access) : bool :=
  match log with
  | [] => true
  | Lock :: log' => guarded_from true log'
  | Unlock :: log' => guarded_from false log'
  | _ :: log' => held && guarded_from held log'
  end.

Definition guarded (log : list Access) : bool := guarded_from false log.

Definition is_lock (a : Access) : bool :=
  match a with Lock | Unlock => true | _ => false end.

(** Calls that belong to the shutdown alone. *)
Definition shutdown_only (e : Event) : bool :=
  match e with
  | SensorsStop | GazeboStop | MasterStop => true
  | _ => false
  end.

(** What a computation leaves alone: the stop flag, the queue and its
    log; and the calls it adds are none of the shutdown's. *)
Definition framed {A} (c : M A) : Prop :=
  forall s, exists calls,
    trace (final (c s)) = trace s ++ calls /\
    existsb shutdown_only calls = false /\
    stop (final (c s)) = stop s /\
    controlMsgs (final (c s)) = controlMsgs s /\
    queue_log (final (c s)) = queue_log s.

(** An element the physics subsystem accepts, for a world named
    "default". *)
Definition loads_default (e : Element) : bool :=
  negb (is_set (elem_error e)) && String.eqb (elem_name e) "default".

(** What leaves [this->master] as it is, however it ends. *)
Definition keeps_master {A} (c : M A) : Prop :=
  forall s, masterp (final (c s)) = masterp s.

Definition describes_world (c : FileData) : bool :=
  match c with
  | Description d =>
      match root_world d with
      | Some e => loads_default e
      | None => false
      end
  | Unparseable => true
  end.

(** Every description on disk holds a world element that loads, for a
    world named "default". *)
Definition disk_ok (d : Disk) : bool :=
  forallb (fun entry => describes_world (snd entry)) d.

Definition named_default (x : World) : bool :=
  String.eqb (world_name x) "default".

(** The disk is in order, a world named "default" is live and no live
    world has another name. *)
Definition serviceable (s : State) : bool :=
  disk_ok (disk s) && is_set (physics.find_world "default" (phys s))
  && forallb named_default (g_worlds (phys s)).

(** A save request that carries a filename names the world "default". *)
Definition addressed (m : ServerControl) : bool :=
  negb (has_save_world_name m && has_save_filename m)
  || String.eqb (save_world_name m) "default".

(** [executes l s s']: from [s], the messages of [l] are processed one
    after the other, first to last, each to completion, and leave [s']. *)
Inductive executes : list ServerControl -> State -> State -> Prop :=
| executes_nil s : executes [] s s
| executes_cons m l s s1 s2 :
    (touch Iterate ;; process_msg m) s = Ok tt s1 ->
    executes l s1 s2 ->
    executes (m :: l) s s2.

(** The calls a computation adds are none of the shutdown's. *)
Definition traced {A} (c : M A) : Prop :=
  forall s, exists calls,
    trace (final (c s)) = trace s ++ calls /\
    existsb shutdown_only calls = false.

(** One turn of the loop, with what arrives during its sleep. *)
Definition turn (arrivals : list Input) : M unit :=
  ProcessControlMsgs ;;
  sensors.run_once true ;;
  common.Time_MSleep 1 ;;
  deliver_all arrivals.

Definition startup_calls : list Event :=
  [SensorsRunOnce true; PhysicsRunWorlds].

Definition shutdown_calls : list Event :=
  [PhysicsStopWorlds; SensorsStop; GazeboStop; MasterStop].

Definition is_interrupt (i : Input) : bool :=
  match i with Interrupt => true | Control _ => false end.

Definition control_of (l : list Input) : list ServerControl :=
  flat_map (fun i => match i with Control msg => [msg] | Interrupt => [] end) l.

(** An interrupt arrives at some turn of the script. *)
Definition interrupted (script : list (list Input)) : bool :=
  existsb (existsb is_interrupt) script.

(** Every message the script delivers is addressed. *)
Definition script_addressed (script : list (list Input)) : bool :=
  forallb (fun arrivals => forallb addressed (control_of arrivals)) script.

Inductive Subsystem := Broker | Plugins | SensorManager | Worlds.

Definition brought_up (e : Event) : list Subsystem :=
  match e with
  | MasterInit => [Broker]
  | GazeboLoad => [Plugins]
  | SensorsLoad => [SensorManager]
  | PhysicsLoad => [Worlds]
  | _ => []
  end.


(** A description [LoadImpl] gets through: it has no world element, or
    one the physics subsystem accepts. *)
Definition loadable (d : SDF) : bool :=
  match root_world d with
  | Some e => negb (is_set (elem_error e))
  | None => true
  end.

(** The calls of [LoadImpl] when the loader raises. *)
Definition failed_load_calls (w : nat) : list Event :=
  [MasterInit; MasterRunThread; GazeboLoad; SensorsLoad; PhysicsLoad;
   CreateWorld w; LoadWorld w].

(** The calls of [LoadImpl] that goes through, [w] being the next
    instance number. *)
Definition load_calls (d : SDF) (w : nat) : list Event :=
  [MasterInit; MasterRunThread; GazeboLoad; SensorsLoad; PhysicsLoad] ++
  match root_world d with
  | Some _ => [CreateWorld w; LoadWorld w]
  | None => []
  end ++
  [NodeInit "/gazebo"; Subscribe "/gazebo/server/control";
   Advertise "/gazebo/world/modify"; GazeboRun].

(** The calls a computation adds to the trace. *)
Definition added_calls {A} (c : M A) (s : State) : list Event :=
  skipn (length (trace s)) (trace (final (c s))).

(** ** The two threads side by side *)

(** [Server::ProcessControlMsgs] runs on the thread of [Run], and
    [Server::OnControl] on a thread of the transport.  Each thread is
    cut into the steps at which the other may run. *)

Module Interleaving.

(** Where the loop thread stands in [ProcessControlMsgs]: before the
    element at a position of the list, before [clear()], or back in
    [Run]. *)
Inductive LoopPc :=
| AtElement (i : nat)
| AtClear
| Returned.

(** Where the transport thread stands in [OnControl]. *)
Inductive CallbackPc :=
| Entering (msg : ServerControl)
| Locked (msg : ServerControl)
| Pushed
| Left.

Record Config := mkConfig {
  server   : State;
  held     : bool;          (* receiveMutex is held *)
  loop     : LoopPc;
  callback : CallbackPc
}.

Inductive Thread := LoopThread | CallbackThread.

(** One step of the loop thread.  It never looks at the mutex. *)
Definition step_loop (c : Config) : option Config :=
  match loop c with
  | AtElement i =>
      match nth_error (controlMsgs (server c)) i with
      | Some m =>
          match (touch Iterate ;; process_msg m) (server c) with
          | Ok _ s' => Some (mkConfig s' (held c) (AtElement (S i)) (callback c))
          | Fault _ _ => None
          end
      | None => Some (mkConfig (server c) (held c) AtClear (callback c))
      end
  | AtClear =>
      match (touch Clear ;; fun s' => Ok tt (set_controlMsgs [] s')) (server c) with
      | Ok _ s' => Some (mkConfig s' (held c) Returned (callback c))
      | Fault _ _ => None
      end
  | Returned => None
  end.

(** One step of the transport thread; it waits while the mutex is held. *)
Definition step_callback (c : Config) : option Config :=
  match callback c with
  | Entering msg =>
      if held c then None
      else Some (mkConfig (final (touch Lock (server c))) true (loop c) (Locked msg))
  | Locked msg =>
      Some (mkConfig
              (final ((touch PushBack ;;
                       fun s => Ok tt (set_controlMsgs (controlMsgs s ++ [msg]) s))
                        (server c)))
              (held c) (loop c) Pushed)
  | Pushed =>
      Some (mkConfig (final (touch Unlock (server c))) false (loop c) Left)
  | Left => None
  end.

Definition step (t : Thread) (c : Config) : option Config :=
  match t with
  | LoopThread => step_loop c
  | CallbackThread => step_callback c
  end.

Fixpoint run (schedule : list Thread) (c : Config) : option Config :=
  match schedule with
  | [] => Some c
  | t :: schedule' =>
      match step t c with
      | Some c' => run schedule' c'
      | None => None
      end
  end.

End Interleaving.

(** * Further notions *)

(** ** Loading *)

(** [LoadFile] gives up: the path holds nothing, the parser's schema is
    missing, or what the path holds is not a description. *)
Definition load_fails (filename : string) (s : State) : bool :=
  match find_file filename (disk s) with
  | None => true
  | Some _ => negb (sdf_schema s) || negb (is_set (sdf.parse filename (disk s)))
  end.

(** Calls that bring a subsystem up or build a world. *)
Definition starts_something (e : Event) : bool :=
  match e with
  | MasterInit | MasterRunThread | GazeboLoad | GazeboInit | GazeboRun
  | SensorsLoad | SensorsInit | PhysicsLoad | PhysicsInitWorlds
  | PhysicsRunWorlds | CreateWorld _ | LoadWorld _ | InitWorld _ | RunWorld _
  | NodeInit _ | Subscribe _ | Advertise _ => true
  | _ => false
  end.


(** The calls of [LoadImpl], whether or not it goes through. *)
Definition LoadImpl_calls (d : SDF) (w : nat) : list Event :=
  if loadable d then load_calls d w else failed_load_calls w.

(** What the path holds is a description the physics subsystem
    accepts. *)
Definition accepted (filename : string) (s : State) : bool :=
  match sdf.parse filename (disk s) with
  | Some d => loadable d
  | None => false
  end.


(** ** Draining *)

(** The calls a drain can make: the lookup and the save of a save
    request, the logged errors, and the calls of a reload. *)
Definition control_call (e : Event) : bool :=
  match e with
  | GetWorld _ | WorldSave _ _ | GzErr _
  | SdfInit | SdfReadFile _ | Publish _
  | PhysicsStopWorlds | PhysicsRemoveWorlds | SensorsRemove | ClearBuffers
  | CreateWorld _ | LoadWorld _ | InitWorld _ | RunWorld _ => true
  | _ => false
  end.

(** [k] reloads' worth of notifications. *)
Fixpoint notice_pairs (k : nat) : list WorldModify :=
  match k with
  | 0 => []
  | S k' => removal_notice :: creation_notice :: notice_pairs k'
  end.

(** What one message, a batch, a drain add to the record: the calls are
    the drain's own, the notifications [k] pairs, followed by a lone
    removal notice when the run faulted halfway through a reload; the
    stop flag is left alone and at most one world is left behind. *)
Definition drains {A} (budget : nat) (c : M A) : Prop :=
  forall s, exists calls k,
    trace (final (c s)) = trace s ++ calls /\
    forallb control_call calls = true /\
    k <= budget /\
    (notifications calls = notice_pairs k \/
     (notifications calls = notice_pairs k ++ [removal_notice] /\
      forall a s', c s <> Ok a s')) /\
    stop (final (c s)) = stop s /\
    (length (g_worlds (phys s)) <= 1 ->
     length (g_worlds (phys (final (c s)))) <= 1).

(** ** The server object *)

(** The rest of [gazebo::Server]: its parameters, its master pointer and
    the member functions that use them ([ParseArgs], [LoadString],
    [ProcessParams], [SetParams], [Fini]).  The state of the sections
    above is the [base] of the object; the calls made so far, those of
    the base included, are kept in one [journal]. *)

From Stdlib Require FMapList FMapFacts OrderedTypeEx.

(** [common::StrStr_M], a [std::map<std::string, std::string>]: one
    value per key, traversed in the order of the keys. *)
Module Params := FMapList.Make OrderedTypeEx.String_as_OT.
Module ParamsFacts := FMapFacts.WFacts_fun OrderedTypeEx.String_as_OT Params.

(** What [po::store] leaves in the variables map of [ParseArgs]. *)
Record Options := mkOptions {
  opt_help          : bool;           (* vm.count("help") *)
  opt_log           : bool;           (* vm.count("log") *)
  opt_play          : option string;  (* vm["play"] *)
  opt_pause         : bool;           (* vm.count("pause") *)
  opt_server_plugin : list string;    (* vm["server-plugin"], empty when absent *)
  opt_world_file    : option string   (* vm["world_file"] *)
}.

(** Library code the member functions call, taken as it comes:
    the command line parser of boost::program_options ([None]: it
    raises), [boost::lexical_cast<bool>] ([None]: it raises),
    [sdf::readString] ([None]: it answers [false]) and, for
    [common::LogPlay], the description the recording at a path yields
    at its first step. *)
Class Externals := mkExternals {
  command_line_parser : list string -> option Options;
  lexical_cast_bool   : string -> option bool;
  sdf_readString      : string -> option SDF;
  LogPlay_Step        : string -> string
}.

(** [boost::to_lower], in the classic locale: [A]..[Z] become [a]..[z]. *)
Definition tolower (c : Ascii.ascii) : Ascii.ascii :=
  let n := Ascii.nat_of_ascii c in
  if Nat.leb 65 n && Nat.leb n 90 then Ascii.ascii_of_nat (n + 32) else c.

Fixpoint to_lower (s : string) : string :=
  match s with
  | EmptyString => EmptyString
  | String c s' => String (tolower c) (to_lower s')
  end.

Module Server.

(** Calls of the object beyond those of its base. *)
Inductive Call :=
| Core (e : Event)
| Cerr (text : string)             (* std::cerr << text *)
| CerrOptions                      (* std::cerr << v_desc *)
| AddPlugin (filename : string)    (* gazebo::add_plugin *)
| LogPlayOpen (path : string)
| LogPlayStep
| SdfReadString (text : string)
| LoggerStart                      (* common::Logger::Instance()->Start() *)
| PauseWorlds (p : bool)           (* physics::pause_worlds *)
| GazeboFini
| PhysicsFini
| SensorsFini
| MasterFini.

Record t := mk {
  base              : State;
  params            : Params.t string;     (* this->params *)
  systemPluginsArgv : list string;
  journal           : list Call            (* oldest first *)
}.

Definition set_base (s : State) (x : t) : t :=
  mk s (params x) (systemPluginsArgv x) (journal x).
Definition set_params (p : Params.t string) (x : t) : t :=
  mk (base x) p (systemPluginsArgv x) (journal x).
Definition set_systemPluginsArgv (l : list string) (x : t) : t :=
  mk (base x) (params x) l (journal x).
Definition set_journal (j : list Call) (x : t) : t :=
  mk (base x) (params x) (systemPluginsArgv x) j.

(** [this->master], tested as a pointer. *)
Definition master (x : t) : bool := masterp (base x).
Definition set_master (b : bool) (x : t) : t :=
  set_base (set_masterp b (base x)) x.

Inductive Outcome (A : Type) :=
| Done (a : A) (x : t)
| Faulted (why : Abort) (x : t).

Arguments Done {A} a x.
Arguments Faulted {A} why x.

Definition SM (A : Type) := t -> Outcome A.

Definition sret {A} (a : A) : SM A := fun x => Done a x.

Definition sbind {A B} (c : SM A) (k : A -> SM B) : SM B :=
  fun x => match c x with
           | Done a x' => k a x'
           | Faulted w x' => Faulted w x'
           end.

Definition outcome {A} (r : Outcome A) : t :=
  match r with Done _ x => x | Faulted _ x => x end.

(** The calls the base has recorded since an earlier state. *)
Definition since (s s' : State) : list Event :=
  skipn (length (trace s)) (trace s').

(** A computation of the base, run on the object: its calls join the
    journal. *)
Definition lift {A} (c : M A) : SM A :=
  fun x =>
    match c (base x) with
    | Ok a s' =>
        Done a (set_journal (journal x ++ map Core (since (base x) s'))
                  (set_base s' x))
    | Fault w s' =>
        Faulted w (set_journal (journal x ++ map Core (since (base x) s'))
                     (set_base s' x))
    end.

Definition call (c : Call) : SM unit :=
  fun x => Done tt (set_journal (journal x ++ [c]) x).

Definition modify (f : t -> t) : SM unit := fun x => Done tt (f x).

End Server.

Declare Scope object_scope.
Delimit Scope object_scope with object.
Notation "x <- c ;; k" := (Server.sbind c (fun x => k))
  (at level 61, c at next level, right associativity) : object_scope.
Notation "c ;; k" := (Server.sbind c (fun _ => k))
  (at level 61, right associativity) : object_scope.

Module ServerObject.
Import Server.
Local Open Scope object_scope.

(** [Server::Server]: [Server::stop] is [true], nothing is stored.  The
    constructor does not assign [this->master]: [m] tells whether what
    it holds passes for a pointer to a Master. *)
Definition new (l : Library) (m : bool) (schema : bool) (d : Disk) : t :=
  mk (Server_new l m schema d) (Params.empty string) [] [].

(** [Server::PrintUsage]. *)
Definition PrintUsage : SM unit :=
  call (Cerr ("Run the Gazebo server." ++ endl ++ endl
              ++ "Usage: gzserver [options] <world_file>" ++ endl ++ endl)).

(** [Server::LoadImpl] on the object. *)
Definition LoadImpl (_elem : SDF) : SM bool := lift (LoadImpl _elem).

(** [Server::LoadFile] on the object. *)
Definition LoadFile (_filename : string) : SM bool :=
  fun x =>
    match find_file _filename (disk (base x)) with
    | None =>
        (lift (gzerr ("Could not open file[" ++ _filename ++ "]" ++ endl)) ;;
         sret false) x
    | Some _ =>
        (ok <- lift sdf.init ;;
         if negb ok then
           lift (gzerr ("Unable to initialize sdf" ++ endl)) ;; sret false
         else
           r <- lift (sdf.readFile _filename) ;;
           match r with
           | None =>
               lift (gzerr ("Unable to read sdf file[" ++ _filename ++ "]" ++ endl)) ;;
               sret false
           | Some d => LoadImpl d
           end) x
    end.

(** [Server::LoadString]. *)
Definition LoadString `{Externals} (_sdfString : string) : SM bool :=
  ok <- lift sdf.init ;;
  if negb ok then
    lift (gzerr ("Unable to initialize sdf" ++ endl)) ;; sret false
  else
    call (SdfReadString _sdfString) ;;
    match sdf_readString _sdfString with
    | None =>
        lift (gzerr ("Unable to read SDF string[" ++ _sdfString ++ "]" ++ endl)) ;;
        sret false
    | Some d => LoadImpl d
    end.

(** [Server::Init], [Server::Stop]. *)
Definition Init : SM unit := lift Init.
Definition Stop : SM unit := lift Stop.

(** [Server::Fini]. *)
Definition Fini : SM unit :=
  Stop ;;
  call GazeboFini ;;
  call PhysicsFini ;;
  call SensorsFini ;;
  (fun x => if master x then call MasterFini x else sret tt x) ;;
  modify (set_master false).

(** The body of the loop of [Server::ProcessParams], for the entry the
    iterator points at. *)
Definition process_param `{Externals} (iter : string * string) : SM unit :=
  if String.eqb (fst iter) "pause" then
    p <- match lexical_cast_bool (snd iter) with
         | Some b => sret b
         | None =>
             let str := to_lower (snd iter) in
             if String.eqb str "true" then sret true
             else if String.eqb str "false" then sret false
             else
               lift (gzerr ("Invalid param value[" ++ fst iter ++ ":"
                            ++ snd iter ++ "]" ++ endl)) ;;
               sret false
         end ;;
    call (PauseWorlds p)
  else if String.eqb (fst iter) "log" then call LoggerStart
  else sret tt.

Fixpoint for_each_param `{Externals} (l : list (string * string)) : SM unit :=
  match l with
  | [] => sret tt
  | iter :: l' => process_param iter ;; for_each_param l'
  end.

(** [Server::ProcessParams]. *)
Definition ProcessParams `{Externals} : SM unit :=
  fun x => for_each_param (Params.elements (params x)) x.

(** [Server::SetParams]. *)
Definition SetParams (_params : Params.t string) : SM unit :=
  modify (fun x =>
    set_params
      (fold_left (fun acc iter => Params.add (fst iter) (snd iter) acc)
                 (Params.elements _params) (params x))
      x).

(** The loop of [ParseArgs] over the plugins of the command line. *)
Fixpoint add_plugins (pp : list string) : SM unit :=
  match pp with
  | [] => sret tt
  | iter :: pp' => call (AddPlugin iter) ;; add_plugins pp'
  end.

(** [Server::ParseArgs].  [vm] is the variables map as this call fills
    it. *)
Definition ParseArgs `{Externals} (argv : list string) : SM bool :=
  modify (set_systemPluginsArgv argv) ;;
  match command_line_parser argv with
  | None =>
      call (Cerr ("Error. Invalid arguments" ++ endl)) ;; sret false
  | Some vm =>
      if opt_help vm then
        PrintUsage ;; call CerrOptions ;; call (Cerr endl) ;; sret false
      else
        add_plugins (opt_server_plugin vm) ;;
        (if opt_log vm then
           modify (fun x => set_params (Params.add "log" "true" (params x)) x)
         else sret tt) ;;
        (if opt_pause vm then
           modify (fun x => set_params (Params.add "pause" "true" (params x)) x)
         else
           modify (fun x => set_params (Params.add "pause" "false" (params x)) x)) ;;
        loaded <- match opt_play vm with
                  | Some path =>
                      call (LogPlayOpen path) ;;
                      call LogPlayStep ;;
                      let sdfString := LogPlay_Step path in
                      LoadString sdfString
                  | None =>
                      let configFilename := "worlds/empty.world" in
                      let configFilename :=
                        match opt_world_file vm with
                        | Some f => f
                        | None => configFilename
                        end in
                      LoadFile configFilename
                  end ;;
        if negb loaded then sret false
        else ProcessParams ;; Init ;; sret true
  end.

End ServerObject.

(** What [ProcessParams] does for the value stored under "pause". *)
Definition pause_calls `{Externals} (v : string) : list Server.Call :=
  match lexical_cast_bool v with
  | Some b => [Server.PauseWorlds b]
  | None =>
      if String.eqb (to_lower v) "true" then [Server.PauseWorlds true]
      else if String.eqb (to_lower v) "false" then [Server.PauseWorlds false]
      else [Server.Core (GzErr ("Invalid param value[pause:" ++ v ++ "]" ++ endl));
            Server.PauseWorlds false]
  end.

(** What the loop of [ProcessParams] does for one entry. *)
Definition entry_calls `{Externals} (iter : string * string) : list Server.Call :=
  if String.eqb (fst iter) "pause" then pause_calls (snd iter)
  else if String.eqb (fst iter) "log" then [Server.LoggerStart]
  else [].

(** What [ProcessParams] does for a whole map. *)
Definition params_calls `{Externals} (m : Params.t string) : list Server.Call :=
  match Params.find "log" m with
  | Some _ => [Server.LoggerStart]
  | None => []
  end ++
  match Params.find "pause" m with
  | Some v => pause_calls v
  | None => []
  end.

(** A stand-in for the library code, for the examples: the options are
    read off the arguments in the simplest way, ["1"] and ["0"] are the
    booleans, a description is the word "world" or "models". *)
Definition example_externals : Externals :=
  mkExternals
    (fun argv =>
       if existsb (String.eqb "--bogus=") argv then None
       else Some (mkOptions
                    (existsb (String.eqb "--help") argv)
                    (existsb (String.eqb "--log") argv)
                    (if existsb (String.eqb "--play") argv
                     then Some "state.log" else None)
                    (existsb (String.eqb "--pause") argv)
                    (if existsb (String.eqb "-s") argv
                     then ["libA.so"; "libB.so"] else [])
                    (find (fun a => negb (String.prefix "-" a)) (tl argv))))
    (fun v => if String.eqb v "1" then Some true
              else if String.eqb v "0" then Some false else None)
    (fun text => if String.eqb text "world"
                 then Some (mkSDF (Some (mkElement "default" ["recorded_model"]
                                           None)))
                 else if String.eqb text "rejected"
                 then Some (mkSDF (Some rejected_element))
                 else if String.eqb text "models" then Some (mkSDF None)
                 else None)
    (fun path => "world").

(** Reduction of a straight-line run of the object down to the record
    of its final state. *)
Ltac exec_object :=
  cbv beta iota delta
    [Server.sbind Server.sret Server.lift Server.call Server.modify
     Server.set_journal Server.set_base Server.set_master Server.set_params
     Server.master set_masterp masterp lib
     Server.set_systemPluginsArgv
     Server.base Server.master Server.params Server.systemPluginsArgv
     Server.journal
     bind ret gzerr emit sdf.init sdf.readFile negb
     set_trace trace sdf_schema disk phys stop controlMsgs queue_log];
  unfold Server.since; cbn [trace].

(** ** Start-up *)

(** The parameters as [ParseArgs] leaves them. *)
Definition stored_params (vm : Options) (p : Params.t string) : Params.t string :=
  Params.add "pause" (if opt_pause vm then "true" else "false")
    (if opt_log vm then Params.add "log" "true" p else p).

(** The world file [ParseArgs] loads when nothing is played back. *)
Definition world_source (vm : Options) : string :=
  match opt_world_file vm with
  | Some f => f
  | None => "worlds/empty.world"
  end.

(** The calls of [Init]. *)
Definition init_calls : list Event :=
  [GazeboInit; SensorsInit; PhysicsInitWorlds].

(** The arguments of the calls of [physics::pause_worlds] in a journal. *)
Definition pauses (j : list Server.Call) : list bool :=
  flat_map (fun c => match c with Server.PauseWorlds p => [p] | _ => [] end) j.

Definition is_cerr (c : Server.Call) : bool :=
  match c with Server.Cerr _ | Server.CerrOptions => true | _ => false end.

(** The library's reading, if it has one, is the given boolean. *)
Definition agrees (o : option bool) (b : bool) : bool :=
  match o with
  | Some b' => Bool.eqb b' b
  | None => true
  end.

(** [LoadString] gives up: the parser's schema is missing or the text
    is not a description. *)
Definition string_fails `{Externals} (text : string) (s : State) : bool :=
  negb (sdf_schema s) || negb (is_set (sdf_readString text)).

(** The text is a description the physics subsystem accepts. *)
Definition string_accepted `{Externals} (text : string) : bool :=
  match sdf_readString text with
  | Some d => loadable d
  | None => false
  end.

(** What the load of [ParseArgs] leaves alone, however it ends. *)
Definition load_frame (x0 : Server.t) (r : Server.Outcome bool)
    (loading : list Server.Call) : Prop :=
  Server.journal (Server.outcome r) = Server.journal x0 ++ loading /\ pauses loading = [] /\
  Server.params (Server.outcome r) = Server.params x0 /\
  Server.systemPluginsArgv (Server.outcome r) = Server.systemPluginsArgv x0 /\
  stop (Server.base (Server.outcome r)) = stop (Server.base x0).

(** A server object just constructed on the small installation. *)
Definition fresh_object : Server.t :=
  ServerObject.new example_library false true example_disk.

(** * Properties *)

Lemma notifications_app t1 t2 :
  notifications (t1 ++ t2) = notifications t1 ++ notifications t2.
Proof.
  induction t1 as [|e t1 IH]; simpl; [reflexivity|].
  destruct e; simpl; rewrite ?IH; reflexivity.
Qed.

(** ** OpenWorld *)

Lemma OpenWorld_fails filename s :
  parse_fails filename s ->
  exists calls,
    OpenWorld filename s = Ok false (set_trace (trace s ++ calls) s) /\
    notifications calls = [] /\
    (calls = [SdfInit; GzErr ("Unable to initialize sdf" ++ endl)] \/
     calls = [SdfInit; SdfReadFile filename;
              GzErr ("Unable to read sdf file[" ++ filename ++ "]" ++ endl)]).
Proof.
  intros Hfail. unfold OpenWorld, sdf.init, sdf.readFile. run_server.
  destruct (sdf_schema s) eqn:Hschema; simpl.
  - destruct Hfail as [Hf|Hf]; [congruence|].
    rewrite Hf. eexists. split.
    + unfold set_trace; simpl. rewrite <- !app_assoc. simpl. reflexivity.
    + split; [reflexivity|]. right. reflexivity.
  - eexists. split.
    + unfold set_trace; simpl. rewrite <- !app_assoc. simpl.
      rewrite Hschema. reflexivity.
    + split; [reflexivity|]. left. reflexivity.
Qed.

(** C1: when the replacement source does not parse, [OpenWorld] returns
    [false], publishes no lifecycle notification and leaves the world
    registry (the worlds, their models, whether they run) as it was;
    all it adds to the recorded calls are the parser calls and one
    logged error. *)
Theorem OpenWorld_parse_failure filename s :
  parse_fails filename s ->
  exists s',
    OpenWorld filename s = Ok false s' /\
    notifications (trace s') = notifications (trace s) /\
    phys s' = phys s /\
    stop s' = stop s /\ controlMsgs s' = controlMsgs s /\ disk s' = disk s /\
    exists text,
      trace s' = trace s ++ [SdfInit; GzErr text] \/
      trace s' = trace s ++ [SdfInit; SdfReadFile filename; GzErr text].
Proof.
  intros Hfail.
  destruct (OpenWorld_fails filename s Hfail) as (calls & Hrun & Hnone & Hcalls).
  exists (set_trace (trace s ++ calls) s). split; [exact Hrun|].
  simpl. rewrite notifications_app, Hnone, app_nil_r.
  repeat (split; [reflexivity|]).
  destruct Hcalls as [Hc | Hc]; subst calls; eexists; [left|right]; reflexivity.
Qed.

Lemma OpenWorld_parse_failure_witness :
  exists s',
    OpenWorld "broken.world" running_server = Ok false s' /\
    notifications (trace s') = notifications (trace running_server) /\
    phys s' = phys running_server /\
    stop s' = stop running_server /\
    controlMsgs s' = controlMsgs running_server /\
    disk s' = disk running_server /\
    exists text,
      trace s' = trace running_server ++ [SdfInit; GzErr text] \/
      trace s' = trace running_server ++
                 [SdfInit; SdfReadFile "broken.world"; GzErr text].
Proof.
  apply (OpenWorld_parse_failure "broken.world" running_server).
  right. reflexivity.
Defined.

Lemma valid_source_inv filename s e :
  valid_source filename s = Some e ->
  sdf_schema s = true /\
  exists d, sdf.parse filename (disk s) = Some d /\ root_world d = Some e.
Proof.
  unfold valid_source. destruct (sdf_schema s); [|discriminate].
  destruct (sdf.parse filename (disk s)) as [d|]; [|discriminate].
  intros H. split; [reflexivity|]. exists d. split; [reflexivity|exact H].
Qed.

Lemma OpenWorld_parsed filename s d :
  sdf_schema s = true ->
  sdf.parse filename (disk s) = Some d ->
  OpenWorld filename s =
  match root_world d with
  | Some e =>
      match elem_error e with
      | None => Ok true (reloaded filename e s)
      | Some what => Fault (Exception what) (torn_down filename s)
      end
  | None =>
      match load_empty (lib s) with
      | None => Ok true (reloaded_blank filename s)
      | Some w => Fault w (torn_down filename s)
      end
  end.
Proof.
  intros Hschema Hparse.
  destruct s as [st q ql p sch dk tr ms lb]. simpl in *. subst sch.
  unfold OpenWorld, sdf.init, sdf.readFile, transport.Publish,
    physics.stop_worlds, physics.remove_worlds, sensors.remove_sensors,
    transport.clear_buffers, physics.create_world.
  exec_server. rewrite Hparse.
  unfold physics.load_world, physics.init_world, physics.run_world.
  destruct (root_world d) as [e|].
  - destruct (elem_error e) as [what|] eqn:Herr; exec_server; rewrite ?Herr.
    + unfold torn_down, teardown_calls. state_norm.
      cbn [app]. rewrite <- !app_assoc. reflexivity.
    + unfold reloaded. state_norm.
      cbn [map app world_id]. rewrite Nat.eqb_refl.
      cbn [physics.loaded physics.set_running
           world_id world_name world_models world_running].
      rewrite Nat.eqb_refl. rewrite <- !app_assoc. reflexivity.
  - exec_server. destruct (load_empty lb) as [w|].
    + unfold torn_down, teardown_calls. state_norm.
      cbn [app]. rewrite <- !app_assoc. reflexivity.
    + unfold reloaded_blank. state_norm.
      cbn [map app world_id]. rewrite Nat.eqb_refl.
      cbn [physics.set_running world_id world_name world_models world_running].
      rewrite <- !app_assoc. reflexivity.
Qed.





(** The ways [OpenWorld] ends. *)
Lemma OpenWorld_cases filename s :
  (exists calls,
      OpenWorld filename s = Ok false (set_trace (trace s ++ calls) s) /\
      notifications calls = [] /\
      (calls = [SdfInit; GzErr ("Unable to initialize sdf" ++ endl)] \/
       calls = [SdfInit; SdfReadFile filename;
                GzErr ("Unable to read sdf file[" ++ filename ++ "]" ++ endl)])) \/
  (exists e,
      valid_source filename s = Some e /\ elem_error e = None /\
      OpenWorld filename s = Ok true (reloaded filename e s)) \/
  (exists d,
      sdf.parse filename (disk s) = Some d /\ root_world d = None /\
      load_empty (lib s) = None /\
      OpenWorld filename s = Ok true (reloaded_blank filename s)) \/
  (exists d w,
      sdf.parse filename (disk s) = Some d /\
      match root_world d with
      | Some e => elem_error e <> None
      | None => load_empty (lib s) <> None
      end /\
      OpenWorld filename s = Fault w (torn_down filename s)).
Proof.
  destruct (sdf_schema s) eqn:Hschema.
  - destruct (sdf.parse filename (disk s)) as [d|] eqn:Hparse.
    + pose proof (OpenWorld_parsed filename s d Hschema Hparse) as Hrun.
      destruct (root_world d) as [e|] eqn:Hroot.
      * assert (Hv : valid_source filename s = Some e).
        { unfold valid_source. rewrite Hschema, Hparse. exact Hroot. }
        destruct (elem_error e) as [what|] eqn:Herr.
        -- right; right; right. exists d, (Exception what).
           try rewrite Hroot in *. try rewrite Herr in *.
           repeat split; [discriminate|exact Hrun].
        -- right; left. exists e. try rewrite Herr in *.
           repeat split; assumption.
      * destruct (load_empty (lib s)) as [w|] eqn:Hempty.
        -- right; right; right. exists d, w.
           try rewrite Hroot in *. try rewrite Hempty in *.
           repeat split; [discriminate|exact Hrun].
        -- right; right; left. exists d. try rewrite Hempty in *.
           repeat split; assumption.
    + left. apply OpenWorld_fails. right. exact Hparse.
  - left. apply OpenWorld_fails. left. exact Hschema.
Qed.

(** ** The queue *)

Lemma for_each_app l1 l2 s :
  for_each (l1 ++ l2) s = (for_each l1 ;; for_each l2) s.
Proof.
  revert s. induction l1 as [|m l1 IH]; intros s; [reflexivity|].
  unfold bind in *. simpl. unfold bind, touch.
  destruct (process_msg m _) as [u s1|w s1]; [apply IH|reflexivity].
Qed.

Lemma state_ext s1 s2 :
  stop s1 = stop s2 -> controlMsgs s1 = controlMsgs s2 ->
  queue_log s1 = queue_log s2 -> phys s1 = phys s2 ->
  sdf_schema s1 = sdf_schema s2 -> disk s1 = disk s2 ->
  trace s1 = trace s2 -> masterp s1 = masterp s2 -> lib s1 = lib s2 ->
  s1 = s2.
Proof.
  destruct s1, s2; simpl; intros; subst; reflexivity.
Qed.

Lemma OnControl_run msg s :
  OnControl msg s = Ok tt (enqueued [msg] s).
Proof.
  unfold OnControl. exec_server. f_equal.
  apply state_ext; simpl; try reflexivity.
  rewrite <- !app_assoc. reflexivity.
Qed.

Lemma enqueue_run msgs s :
  enqueue msgs s = Ok tt (enqueued msgs s).
Proof.
  revert s. induction msgs as [|m msgs IH]; intros s.
  - simpl. unfold ret. f_equal. apply state_ext; simpl;
      rewrite ?app_nil_r; reflexivity.
  - simpl. unfold bind. rewrite OnControl_run, IH. f_equal.
    apply state_ext; simpl; try reflexivity;
      rewrite <- !app_assoc; reflexivity.
Qed.

(** ** Dispatch of one message *)

Lemma asks_new_world_true m :
  asks_new_world m = true <-> sc_new_world m = Some true.
Proof.
  unfold asks_new_world, has_new_world, new_world.
  destruct (sc_new_world m) as [[|]|]; simpl; split; congruence.
Qed.

Lemma process_msg_save m name :
  sc_save_world_name m = Some name ->
  process_msg m = save_action name (sc_save_filename m).
Proof.
  intros H. unfold process_msg, save_action, has_save_world_name,
    save_world_name, has_save_filename, save_filename.
  rewrite H. simpl. destruct (sc_save_filename m); reflexivity.
Qed.

Lemma process_msg_new m :
  sc_save_world_name m = None -> asks_new_world m = true ->
  process_msg m = reload_action "worlds/empty.world".
Proof.
  intros H1 H2. unfold process_msg, has_save_world_name.
  rewrite H1. simpl. fold (asks_new_world m). rewrite H2. reflexivity.
Qed.

Lemma process_msg_open m f :
  sc_save_world_name m = None -> asks_new_world m = false ->
  sc_open_filename m = Some f ->
  process_msg m = reload_action f.
Proof.
  intros H1 H2 H3. unfold process_msg, has_save_world_name.
  rewrite H1. simpl. fold (asks_new_world m). rewrite H2.
  unfold has_open_filename, open_filename. rewrite H3. reflexivity.
Qed.

Lemma process_msg_none m :
  sc_save_world_name m = None -> asks_new_world m = false ->
  sc_open_filename m = None ->
  process_msg m = ret tt.
Proof.
  intros H1 H2 H3. unfold process_msg, has_save_world_name.
  rewrite H1. simpl. fold (asks_new_world m). rewrite H2.
  unfold has_open_filename. rewrite H3. reflexivity.
Qed.

Lemma save_action_no_filename name s :
  save_action name None s =
  Ok tt (set_trace
           (trace s ++ [GetWorld name; GzErr ("No filename specified." ++ endl)]) s).
Proof.
  unfold save_action, physics.get_world. exec_server.
  f_equal. apply state_ext; simpl; try reflexivity.
  rewrite <- app_assoc. reflexivity.
Qed.

Lemma save_action_absent_world name f s :
  physics.find_world name (phys s) = None ->
  save_action name (Some f) s = Fault NullDeref (looked_up name s).
Proof.
  intros Hfind. unfold save_action, physics.get_world. exec_server.
  fold (phys s). rewrite Hfind. reflexivity.
Qed.

Lemma find_world_find_id name p x :
  physics.find_world name p = Some x ->
  exists y, physics.find_id (world_id x) p = Some y.
Proof.
  unfold physics.find_world, physics.find_id. intros H.
  apply find_some in H. destruct H as [Hin _].
  destruct (find (fun y => Nat.eqb (world_id y) (world_id x)) (g_worlds p))
    as [y|] eqn:Hy.
  - exists y. reflexivity.
  - exfalso. apply (find_none _ _ Hy) in Hin. rewrite Nat.eqb_refl in Hin.
    discriminate.
Qed.

Lemma save_action_found name f s x :
  physics.find_world name (phys s) = Some x ->
  exists y,
    physics.find_id (world_id x) (phys s) = Some y /\
    save_action name (Some f) s =
    Ok tt (set_disk ((f, Description
                          (mkSDF (Some (mkElement (world_name y) (world_models y)
                                          None))))
                     :: disk s)
             (set_trace (trace s ++ [GetWorld name; WorldSave (world_id x) f]) s)).
Proof.
  intros Hfind. destruct (find_world_find_id _ _ _ Hfind) as [y Hy].
  exists y. split; [exact Hy|].
  unfold save_action, physics.get_world. exec_server.
  fold (phys s). rewrite Hfind. simpl. unfold physics.World_Save.
  exec_server. fold (phys s). rewrite Hy.
  f_equal. apply state_ext; simpl; try reflexivity.
  rewrite <- app_assoc. reflexivity.
Qed.

(** C10: of the three actions at most one runs, by fixed precedence: a
    message with [save_world_name] runs the save action, which reads
    only the two save fields; otherwise one with [new_world] present and
    true runs the reload of the empty world; otherwise one with
    [open_filename] runs the reload of that file; a message with none of
    them does nothing. *)
Theorem process_msg_precedence m :
  (has_save_world_name m = true ->
     process_msg m = save_action (save_world_name m) (sc_save_filename m)) /\
  (has_save_world_name m = false -> asks_new_world m = true ->
     process_msg m = reload_action "worlds/empty.world") /\
  (has_save_world_name m = false -> asks_new_world m = false ->
     has_open_filename m = true ->
     process_msg m = reload_action (open_filename m)) /\
  (has_save_world_name m = false -> asks_new_world m = false ->
     has_open_filename m = false ->
     forall s, process_msg m s = Ok tt s).
Proof.
  unfold has_save_world_name, has_open_filename, save_world_name, open_filename.
  repeat split.
  - destruct (sc_save_world_name m) as [name|] eqn:E; [|discriminate].
    intros _. apply process_msg_save. exact E.
  - destruct (sc_save_world_name m) eqn:E; [discriminate|].
    intros _ H. apply process_msg_new; assumption.
  - destruct (sc_save_world_name m) eqn:E; [discriminate|].
    destruct (sc_open_filename m) as [f|] eqn:F; [|discriminate].
    intros _ H _. apply process_msg_open; assumption.
  - destruct (sc_save_world_name m) eqn:E; [discriminate|].
    destruct (sc_open_filename m) as [f|] eqn:F; [discriminate|].
    intros _ H _ s. rewrite process_msg_none; auto.
Qed.

Lemma process_msg_precedence_witness :
  process_msg (mkServerControl (Some "default") None (Some true) (Some "a.world"))
  = save_action "default" None /\
  process_msg (mkServerControl None None (Some true) (Some "a.world"))
  = reload_action "worlds/empty.world" /\
  process_msg (mkServerControl None None (Some false) (Some "a.world"))
  = reload_action "a.world" /\
  process_msg (mkServerControl None None (Some false) None) running_server
  = Ok tt running_server.
Proof.
  split; [|split; [|split]].
  - apply (proj1 (process_msg_precedence
                    (mkServerControl (Some "default") None (Some true) (Some "a.world")))).
    reflexivity.
  - apply (proj1 (proj2 (process_msg_precedence
                    (mkServerControl None None (Some true) (Some "a.world")))));
      reflexivity.
  - apply (proj1 (proj2 (proj2 (process_msg_precedence
                    (mkServerControl None None (Some false) (Some "a.world"))))));
      reflexivity.
  - apply (proj2 (proj2 (proj2 (process_msg_precedence
                    (mkServerControl None None (Some false) None)))));
      reflexivity.
Defined.

(** C8: a message that asks for a new world and one that asks to open
    "worlds/empty.world" are processed alike: both run [OpenWorld] on
    that source, and from the same state end in the same result, state
    and notifications included. *)
Theorem new_world_is_open_empty_world m1 m2 s :
  has_save_world_name m1 = false -> asks_new_world m1 = true ->
  has_save_world_name m2 = false -> asks_new_world m2 = false ->
  sc_open_filename m2 = Some "worlds/empty.world" ->
  process_msg m1 s = process_msg m2 s /\
  process_msg m1 s = (_ <- OpenWorld "worlds/empty.world" ;; ret tt) s /\
  notifications (trace (final (process_msg m1 s))) =
  notifications (trace (final (process_msg m2 s))).
Proof.
  unfold has_save_world_name. intros Hs1 Hn1 Hs2 Hn2 Ho2.
  destruct (sc_save_world_name m1) eqn:E1; [discriminate|].
  destruct (sc_save_world_name m2) eqn:E2; [discriminate|].
  rewrite (process_msg_new m1 E1 Hn1), (process_msg_open m2 _ E2 Hn2 Ho2).
  repeat split.
Qed.

Lemma new_world_is_open_empty_world_witness :
  process_msg new_world_request running_server =
  process_msg (open_request "worlds/empty.world") running_server /\
  process_msg new_world_request running_server =
  (_ <- OpenWorld "worlds/empty.world" ;; ret tt) running_server /\
  notifications (trace (final (process_msg new_world_request running_server))) =
  notifications (trace (final (process_msg (open_request "worlds/empty.world")
                                 running_server))).
Proof.
  apply (new_world_is_open_empty_world new_world_request
           (open_request "worlds/empty.world") running_server);
    reflexivity.
Defined.

(** ** Draining the queue *)

Lemma ProcessControlMsgs_finish s :
  ProcessControlMsgs s = finish_batch (controlMsgs s) s.
Proof. reflexivity. Qed.

Lemma finish_batch_app before after s s1 :
  for_each before s = Ok tt s1 ->
  finish_batch (before ++ after) s = finish_batch after s1.
Proof.
  intros H. unfold finish_batch. unfold bind at 1.
  rewrite for_each_app. unfold bind at 1. rewrite H. reflexivity.
Qed.

(** C6: when the drain reaches a save request with no [save_filename],
    processing it logs "No filename specified.", leaves the stop flag,
    the worlds, the disk and the queue as they were, and the drain goes
    on with every message queued behind it, then clears the queue. *)
Theorem save_without_filename_is_skipped m before after s s1 :
  has_save_world_name m = true ->
  has_save_filename m = false ->
  controlMsgs s = before ++ m :: after ->
  for_each before s = Ok tt s1 ->
  exists s2,
    (touch Iterate ;; process_msg m) s1 = Ok tt s2 /\
    trace s2 = trace s1 ++ [GetWorld (save_world_name m);
                            GzErr ("No filename specified." ++ endl)] /\
    stop s2 = stop s1 /\ phys s2 = phys s1 /\ disk s2 = disk s1 /\
    controlMsgs s2 = controlMsgs s1 /\
    ProcessControlMsgs s = finish_batch after s2.
Proof.
  unfold has_save_world_name, has_save_filename, save_world_name.
  intros Hname Hfile Hqueue Hbefore.
  destruct (sc_save_world_name m) as [name|] eqn:En; [|discriminate].
  destruct (sc_save_filename m) as [f|] eqn:Ef; [discriminate|].
  simpl.
  exists (set_trace (trace s1 ++ [GetWorld name;
                                  GzErr ("No filename specified." ++ endl)])
            (set_queue_log (queue_log s1 ++ [Iterate]) s1)).
  assert (Hstep : (touch Iterate ;; process_msg m) s1 =
                  Ok tt (set_trace (trace s1 ++ [GetWorld name;
                                     GzErr ("No filename specified." ++ endl)])
                           (set_queue_log (queue_log s1 ++ [Iterate]) s1))).
  { unfold bind, touch. rewrite (process_msg_save m name En), Ef.
    rewrite save_action_no_filename. reflexivity. }
  split; [exact Hstep|].
  repeat (split; [reflexivity|]).
  rewrite ProcessControlMsgs_finish, Hqueue.
  rewrite (finish_batch_app before (m :: after) s s1 Hbefore).
  unfold finish_batch. simpl. unfold bind in *. unfold touch in Hstep |- *.
  rewrite Hstep. reflexivity.
Qed.

Lemma save_without_filename_is_skipped_witness :
  exists s2,
    (touch Iterate ;; process_msg (save_request "default" None))
      (reloaded "worlds/empty.world" (mkElement "default" ["ground_plane"] None)
         (set_queue_log [Lock; PushBack; Unlock; Lock; PushBack; Unlock;
                         Lock; PushBack; Unlock; Iterate]
            (set_controlMsgs [new_world_request; save_request "default" None;
                              open_request "broken.world"] running_server)))
    = Ok tt s2 /\
    trace s2 =
      trace (reloaded "worlds/empty.world" (mkElement "default" ["ground_plane"] None)
               (set_queue_log [Lock; PushBack; Unlock; Lock; PushBack; Unlock;
                               Lock; PushBack; Unlock; Iterate]
                  (set_controlMsgs [new_world_request; save_request "default" None;
                                    open_request "broken.world"] running_server)))
      ++ [GetWorld "default"; GzErr ("No filename specified." ++ endl)] /\
    stop s2 = false /\
    phys s2 = mkPhysics [mkWorld 1 "default" ["ground_plane"] true] 2 /\
    disk s2 = example_disk /\
    controlMsgs s2 = [new_world_request; save_request "default" None;
                      open_request "broken.world"] /\
    ProcessControlMsgs
      (final (enqueue [new_world_request; save_request "default" None;
                       open_request "broken.world"] running_server))
    = finish_batch [open_request "broken.world"] s2.
Proof.
  apply (save_without_filename_is_skipped
           (save_request "default" None)
           [new_world_request] [open_request "broken.world"]
           (final (enqueue [new_world_request; save_request "default" None;
                            open_request "broken.world"] running_server)));
    reflexivity.
Defined.

Lemma framed_emit e : shutdown_only e = false -> framed (emit e).
Proof.
  intros He s. exists [e]. simpl. rewrite He. repeat split.
Qed.

Lemma framed_ret {A} (a : A) : framed (ret a).
Proof.
  intros s. exists []. simpl. rewrite app_nil_r. repeat split.
Qed.

Lemma framed_fault {A} w : framed (@fault A w).
Proof.
  intros s. exists []. simpl. rewrite app_nil_r. repeat split.
Qed.

Lemma framed_bind {A B} (c : M A) (k : A -> M B) :
  framed c -> (forall a, framed (k a)) -> framed (bind c k).
Proof.
  intros Hc Hk s. unfold bind.
  destruct (Hc s) as (c1 & Ht & Hn & Hs & Hq & Hl).
  destruct (c s) as [a s1|w s1]; cbn [final] in *.
  - destruct (Hk a s1) as (c2 & Ht2 & Hn2 & Hs2 & Hq2 & Hl2).
    exists (c1 ++ c2). rewrite Ht2, Ht, app_assoc, existsb_app, Hn, Hn2.
    repeat split; congruence.
  - exists c1. repeat split; assumption.
Qed.

Lemma framed_OpenWorld f : framed (OpenWorld f).
Proof.
  intros s.
  destruct (OpenWorld_cases f s)
    as [(c & H & _ & Hc)|[(e & _ & _ & H)|[(d & _ & _ & _ & H)|(d & w & _ & _ & H)]]];
    rewrite H; cbn [final].
  - exists c. destruct Hc; subst c; repeat split.
  - exists (reload_calls f (g_next (phys s))). repeat split.
  - exists (reload_calls f (g_next (phys s))). repeat split.
  - eexists. unfold torn_down. cbn [trace set_trace]. repeat split.
Qed.

Lemma framed_save_action name filename : framed (save_action name filename).
Proof.
  intros s. destruct filename as [f|].
  - destruct (physics.find_world name (phys s)) as [x|] eqn:Hfind.
    + destruct (save_action_found name f s x Hfind) as (y & _ & H). rewrite H.
      eexists. cbn [final trace set_disk set_trace]. repeat split.
    + rewrite (save_action_absent_world name f s Hfind).
      eexists. unfold looked_up. cbn [final trace set_trace]. repeat split.
  - rewrite save_action_no_filename.
    eexists. cbn [final trace set_trace]. repeat split.
Qed.

Lemma framed_reload_action f : framed (reload_action f).
Proof.
  apply framed_bind; [apply framed_OpenWorld|intros; apply framed_ret].
Qed.

Lemma framed_process_msg m : framed (process_msg m).
Proof.
  destruct (sc_save_world_name m) as [name|] eqn:Hs.
  - rewrite (process_msg_save m name Hs). apply framed_save_action.
  - destruct (asks_new_world m) eqn:Hn.
    + rewrite (process_msg_new m Hs Hn). apply framed_reload_action.
    + destruct (sc_open_filename m) as [f|] eqn:Ho.
      * rewrite (process_msg_open m f Hs Hn Ho). apply framed_reload_action.
      * rewrite (process_msg_none m Hs Hn Ho). apply framed_ret.
Qed.

(** The iterations add one [Iterate] each to the log of the queue and
    nothing else. *)
Lemma for_each_frame l s :
  exists calls n,
    trace (final (for_each l s)) = trace s ++ calls /\
    existsb shutdown_only calls = false /\
    stop (final (for_each l s)) = stop s /\
    controlMsgs (final (for_each l s)) = controlMsgs s /\
    queue_log (final (for_each l s)) = queue_log s ++ repeat Iterate n /\
    (l <> [] -> n <> 0).
Proof.
  revert s. induction l as [|m l IH]; intros s.
  - exists [], 0. simpl. rewrite !app_nil_r. repeat split. congruence.
  - cbn [for_each]. unfold bind, touch.
    set (s0 := set_queue_log (queue_log s ++ [Iterate]) s).
    destruct (framed_process_msg m s0) as (c1 & Ht & Hn & Hs & Hq & Hl).
    destruct (process_msg m s0) as [u s1|w s1]; cbn [final] in *.
    + destruct (IH s1) as (c2 & n & Ht2 & Hn2 & Hs2 & Hq2 & Hl2 & _).
      exists (c1 ++ c2), (S n).
      rewrite Ht2, Ht, Hs2, Hs, Hq2, Hq, Hl2, Hl, existsb_app, Hn, Hn2.
      subst s0. simpl. rewrite <- !app_assoc. repeat split. congruence.
    + exists c1, 1. rewrite Ht, Hs, Hq, Hl. subst s0. simpl.
      repeat split; try assumption. congruence.
Qed.

(** [ProcessControlMsgs] reads and clears the list without ever taking
    the lock. *)
Lemma ProcessControlMsgs_takes_no_lock s :
  exists added,
    queue_log (final (ProcessControlMsgs s)) = queue_log s ++ added /\
    added <> [] /\ existsb is_lock added = false.
Proof.
  unfold ProcessControlMsgs. unfold bind at 1.
  destruct (for_each_frame (controlMsgs s) s) as (c & n & _ & _ & _ & _ & Hn & Hpos).
  destruct (for_each (controlMsgs s) s) as [u s1|w s1] eqn:Hrun; cbn [final] in Hn.
  - exists (repeat Iterate n ++ [Clear]). unfold bind, touch.
    cbn [final set_controlMsgs set_queue_log queue_log].
    rewrite Hn, <- app_assoc. split; [reflexivity|].
    split; [destruct (repeat Iterate n); discriminate|].
    rewrite existsb_app. simpl. rewrite orb_false_r.
    clear. induction n; simpl; auto.
  - exists (repeat Iterate n). cbn [final]. split; [exact Hn|].
    split.
    + destruct (controlMsgs s) eqn:Hq; [discriminate Hrun|].
      destruct n; [exfalso; apply Hpos; congruence|discriminate].
    + clear. induction n; simpl; auto.
Qed.

(** C4: [OnControl] appends between [Lock] and [Unlock], but
    [ProcessControlMsgs] takes no lock at all: from every state it
    touches the list and adds no lock operation; here it iterates over
    a queued message and clears the list with the mutex free, so the
    accesses to the list are not all guarded. *)
Theorem ProcessControlMsgs_unguarded :
  (forall s, exists added,
      queue_log (final (ProcessControlMsgs s)) = queue_log s ++ added /\
      added <> [] /\ existsb is_lock added = false) /\
  queue_log (final (OnControl (save_request "default" None) running_server))
  = [Lock; PushBack; Unlock] /\
  queue_log (final ((OnControl (save_request "default" None) ;;
                     ProcessControlMsgs) running_server))
  = [Lock; PushBack; Unlock; Iterate; Clear] /\
  guarded [Lock; PushBack; Unlock] = true /\
  guarded [Lock; PushBack; Unlock; Iterate; Clear] = false.
Proof.
  split; [exact ProcessControlMsgs_takes_no_lock|].
  repeat split.
Qed.

(** C3: two messages queued through [OnControl], the first a save
    request for a world the registry does not hold: the drain faults on
    the first, the second is never processed and the queue still holds
    both. *)
Theorem drain_cut_short :
  exists s',
    (enqueue [save_request "nowhere" (Some "out.world"); new_world_request] ;;
     ProcessControlMsgs) running_server = Fault NullDeref s' /\
    controlMsgs s' = [save_request "nowhere" (Some "out.world"); new_world_request] /\
    trace s' = trace running_server ++ [GetWorld "nowhere"] /\
    notifications (trace s') = [].
Proof. eexists. split; [vm_compute; reflexivity|]. repeat split. Qed.

(** ** Batches that run to completion *)

Lemma for_each_executes l s s' :
  for_each l s = Ok tt s' <-> executes l s s'.
Proof.
  revert s. induction l as [|m l IH]; intros s; split; intros H.
  - injection H as <-. constructor.
  - inversion H; subst. reflexivity.
  - cbn [for_each] in H. unfold bind at 1 in H.
    destruct (touch Iterate s) as [u s0|w s0] eqn:Ht; [|discriminate].
    unfold bind at 1 in H.
    destruct (process_msg m s0) as [[] s1|w s1] eqn:Hm; [|discriminate].
    apply executes_cons with s1; [|apply IH; exact H].
    unfold bind. rewrite Ht, Hm. reflexivity.
  - inversion H as [|m' l' s0 s1 s2 Hstep Hrest]; subst.
    cbn [for_each]. unfold bind in Hstep |- *.
    destruct (touch Iterate s) as [u s0|w s0]; [|discriminate].
    destruct (process_msg m s0) as [[] s1'|w s1']; [|discriminate].
    injection Hstep as ->. apply IH. exact Hrest.
Qed.

Lemma parse_disk_ok f d x :
  disk_ok d = true -> sdf.parse f d = Some x ->
  exists e, root_world x = Some e /\ loads_default e = true.
Proof.
  unfold sdf.parse. induction d as [|[n c] d IH]; simpl; [discriminate|].
  intros Hok. apply andb_prop in Hok. destruct Hok as [Hc Hd].
  destruct (String.eqb n f).
  - destruct c as [|y]; [discriminate|]. intros H. injection H as <-.
    cbn [describes_world] in Hc. destruct (root_world y) as [e|]; [|discriminate].
    exists e. split; [reflexivity|exact Hc].
  - apply IH. exact Hd.
Qed.

Lemma serviceable_inv s :
  serviceable s = true ->
  disk_ok (disk s) = true /\
  is_set (physics.find_world "default" (phys s)) = true /\
  forallb named_default (g_worlds (phys s)) = true.
Proof.
  unfold serviceable. intros H.
  apply andb_prop in H. destruct H as [H Hn].
  apply andb_prop in H. destruct H as [Hd Hw]. auto.
Qed.

Lemma OpenWorld_completes f s :
  serviceable s = true ->
  exists b s', OpenWorld f s = Ok b s' /\ serviceable s' = true.
Proof.
  intros Hsv. destruct (serviceable_inv s Hsv) as (Hdisk & Hworld & Hnames).
  destruct (OpenWorld_cases f s)
    as [(c & H & _)|[(e & Hv & _ & H)|[(d & Hp & Hr & _)|(d & w & Hp & Hr & _)]]].
  - exists false. eexists. split; [exact H|]. exact Hsv.
  - exists true. eexists. split; [exact H|].
    destruct (valid_source_inv _ _ _ Hv) as (_ & d & Hp & Hr).
    destruct (parse_disk_ok _ _ _ Hdisk Hp) as (e' & He' & Hl).
    rewrite Hr in He'. injection He' as <-.
    unfold loads_default in Hl. apply andb_prop in Hl. destruct Hl as [_ Hname].
    unfold serviceable, reloaded, physics.find_world, named_default.
    cbn [disk set_trace set_phys phys g_worlds find forallb world_name].
    rewrite Hdisk, Hname. reflexivity.
  - destruct (parse_disk_ok _ _ _ Hdisk Hp) as (e' & He' & _). congruence.
  - destruct (parse_disk_ok _ _ _ Hdisk Hp) as (e' & He' & Hl).
    rewrite He' in Hr. unfold loads_default in Hl.
    apply andb_prop in Hl. destruct Hl as [Hacc _].
    destruct (elem_error e'); [discriminate|]. contradiction.
Qed.

Lemma process_msg_completes m s :
  serviceable s = true -> addressed m = true ->
  exists s', process_msg m s = Ok tt s' /\ serviceable s' = true.
Proof.
  intros Hsv Hm.
  assert (Hreload : forall f, exists s',
             reload_action f s = Ok tt s' /\ serviceable s' = true).
  { intros f. destruct (OpenWorld_completes f s Hsv) as (b & s' & H & Hs').
    exists s'. unfold reload_action, bind. rewrite H. split; [reflexivity|exact Hs']. }
  destruct (sc_save_world_name m) as [name|] eqn:Hs.
  - rewrite (process_msg_save m name Hs).
    destruct (sc_save_filename m) as [f|] eqn:Hf.
    + unfold addressed, has_save_world_name, has_save_filename, save_world_name in Hm.
      rewrite Hs, Hf in Hm. simpl in Hm. apply String.eqb_eq in Hm. subst name.
      destruct (serviceable_inv s Hsv) as (Hdisk & Hworld & Hnames).
      destruct (physics.find_world "default" (phys s)) as [x|] eqn:Hfind;
        [|discriminate].
      destruct (save_action_found "default" f s x Hfind) as (y & Hy & H).
      eexists. split; [exact H|].
      assert (Hyn : named_default y = true).
      { unfold physics.find_id in Hy. apply find_some in Hy. destruct Hy as [Hin _].
        rewrite forallb_forall in Hnames. apply Hnames. exact Hin. }
      unfold serviceable. cbn [disk phys set_disk set_trace].
      rewrite Hfind, Hnames. cbn [disk_ok forallb snd describes_world root_world].
      unfold loads_default. cbn [elem_error elem_name is_set negb andb].
      unfold named_default in Hyn. rewrite Hyn. fold (disk_ok (disk s)).
      rewrite Hdisk. reflexivity.
    + rewrite save_action_no_filename. eexists. split; [reflexivity|exact Hsv].
  - destruct (asks_new_world m) eqn:Hn.
    + rewrite (process_msg_new m Hs Hn). apply Hreload.
    + destruct (sc_open_filename m) as [f|] eqn:Ho.
      * rewrite (process_msg_open m f Hs Hn Ho). apply Hreload.
      * rewrite (process_msg_none m Hs Hn Ho). exists s. split; [reflexivity|exact Hsv].
Qed.

Lemma serviceable_touch a s :
  serviceable (set_queue_log (queue_log s ++ [a]) s) = serviceable s.
Proof. reflexivity. Qed.

Lemma for_each_completes l s :
  serviceable s = true -> forallb addressed l = true ->
  exists s', for_each l s = Ok tt s' /\ serviceable s' = true.
Proof.
  revert s. induction l as [|m l IH]; intros s Hsv Hl.
  - exists s. split; [reflexivity|exact Hsv].
  - simpl in Hl. apply andb_prop in Hl. destruct Hl as [Hm Hl].
    cbn [for_each]. unfold bind, touch.
    destruct (process_msg_completes m (set_queue_log (queue_log s ++ [Iterate]) s))
      as (s1 & H1 & Hsv1); [exact Hsv|exact Hm|].
    rewrite H1. apply IH; assumption.
Qed.

(** A batch of addressed messages, queued through [OnControl] behind
    what the queue already holds, is processed whole: the drain returns,
    every message has been processed in the order of arrival, each to
    completion, and the queue is empty. *)
Lemma drain_in_arrival_order msgs s :
  serviceable s = true ->
  forallb addressed (controlMsgs s ++ msgs) = true ->
  exists s1 s',
    (enqueue msgs ;; ProcessControlMsgs) s
    = Ok tt (set_controlMsgs [] (set_queue_log (queue_log s1 ++ [Clear]) s1)) /\
    executes (controlMsgs s ++ msgs) (enqueued msgs s) s1 /\
    s' = set_controlMsgs [] (set_queue_log (queue_log s1 ++ [Clear]) s1) /\
    controlMsgs s' = [] /\ serviceable s' = true.
Proof.
  intros Hsv Hl.
  destruct (for_each_completes (controlMsgs s ++ msgs) (enqueued msgs s))
    as (s1 & H1 & Hsv1); [exact Hsv|exact Hl|].
  exists s1. eexists. unfold bind at 1. rewrite enqueue_run.
  unfold ProcessControlMsgs, bind, touch.
  change (controlMsgs (enqueued msgs s)) with (controlMsgs s ++ msgs).
  rewrite H1. split; [reflexivity|].
  split; [apply for_each_executes; exact H1|].
  split; [reflexivity|]. split; [reflexivity|exact Hsv1].
Qed.

(** ** The main loop *)

Lemma framed_traced {A} (c : M A) : framed c -> traced c.
Proof.
  intros H s. destruct (H s) as (calls & Ht & Hn & _).
  exists calls. split; assumption.
Qed.

Lemma traced_bind {A B} (c : M A) (k : A -> M B) :
  traced c -> (forall a, traced (k a)) -> traced (bind c k).
Proof.
  intros Hc Hk s. unfold bind.
  destruct (Hc s) as (c1 & Ht & Hn).
  destruct (c s) as [a s1|w s1]; cbn [final] in *.
  - destruct (Hk a s1) as (c2 & Ht2 & Hn2).
    exists (c1 ++ c2). rewrite Ht2, Ht, app_assoc, existsb_app, Hn, Hn2.
    split; reflexivity.
  - exists c1. split; assumption.
Qed.

Lemma traced_silent (f : State -> State) :
  (forall s, trace (f s) = trace s) -> traced (fun s => Ok tt (f s)).
Proof.
  intros Hf s. exists []. cbn [final]. rewrite Hf, app_nil_r.
  split; reflexivity.
Qed.

Lemma traced_for_each l : traced (for_each l).
Proof.
  intros s. destruct (for_each_frame l s) as (calls & n & Ht & Hn & _).
  exists calls. split; assumption.
Qed.

Lemma traced_ProcessControlMsgs : traced ProcessControlMsgs.
Proof.
  intros s. unfold ProcessControlMsgs.
  apply (traced_bind (for_each (controlMsgs s))); [apply traced_for_each|].
  intros _. apply traced_bind; [|intros _]; apply traced_silent; reflexivity.
Qed.

Lemma traced_deliver_all l : traced (deliver_all l).
Proof.
  induction l as [|i l IH]; cbn [deliver_all].
  - apply framed_traced, framed_ret.
  - apply traced_bind; [|intros _; exact IH].
    destruct i as [|msg]; cbn [deliver].
    + apply traced_silent. reflexivity.
    + unfold OnControl.
      repeat (apply traced_bind; [|intros _]); apply traced_silent; reflexivity.
Qed.

Lemma traced_turn arrivals : traced (turn arrivals).
Proof.
  unfold turn.
  apply traced_bind; [apply traced_ProcessControlMsgs|intros _].
  apply traced_bind; [apply framed_traced, framed_emit; reflexivity|intros _].
  apply traced_bind; [apply framed_traced, framed_emit; reflexivity|intros _].
  apply traced_deliver_all.
Qed.

Lemma while_not_stop_trace script s s' :
  while_not_stop script s = Some (Ok tt s') ->
  stop s' = true /\
  exists body, trace s' = trace s ++ body /\ existsb shutdown_only body = false.
Proof.
  revert s. induction script as [|arrivals script IH]; intros s H;
    cbn [while_not_stop] in H; destruct (stop s) eqn:Hstop;
    try discriminate;
    try (injection H as <-; split; [exact Hstop|];
         exists []; rewrite app_nil_r; split; reflexivity).
  fold (turn arrivals) in H.
  destruct (traced_turn arrivals s) as (c1 & Ht & Hn).
  destruct (turn arrivals s) as [u s1|w s1]; [|discriminate].
  cbn [final] in Ht. destruct (IH s1 H) as (Hs' & c2 & Ht2 & Hn2).
  split; [exact Hs'|]. exists (c1 ++ c2).
  rewrite Ht2, Ht, app_assoc, existsb_app, Hn, Hn2. split; reflexivity.
Qed.

Lemma find_world_set_running b name ws n :
  physics.find_world name (mkPhysics (map (physics.set_running b) ws) n)
  = option_map (physics.set_running b) (physics.find_world name (mkPhysics ws n)).
Proof.
  unfold physics.find_world. cbn [g_worlds].
  induction ws as [|x l IH]; [reflexivity|].
  cbn [map find physics.set_running world_name].
  destruct (String.eqb (world_name x) name); [reflexivity|exact IH].
Qed.

Lemma startup_run s :
  exists s1,
    (sensors.run_once true ;; physics.run_worlds) s = Ok tt s1 /\
    trace s1 = trace s ++ startup_calls /\ stop s1 = stop s /\
    controlMsgs s1 = controlMsgs s /\ disk s1 = disk s /\
    physics.find_world "default" (phys s1)
    = option_map (physics.set_running true) (physics.find_world "default" (phys s)).
Proof.
  destruct s as [st q ql [ws n] sch dk tr ms lb].
  eexists. unfold sensors.run_once, physics.run_worlds. exec_server.
  split; [reflexivity|]. cbn [trace stop controlMsgs disk phys].
  rewrite <- app_assoc. repeat (split; [reflexivity|]).
  apply find_world_set_running.
Qed.

Lemma deliver_all_run l s :
  exists s',
    deliver_all l s = Ok tt s' /\
    serviceable s' = serviceable s /\
    controlMsgs s' = controlMsgs s ++ control_of l /\
    stop s' = stop s || existsb is_interrupt l.
Proof.
  revert s. induction l as [|i l IH]; intros s.
  - exists s. cbn. rewrite app_nil_r, orb_false_r. repeat split.
  - cbn [deliver_all]. unfold bind.
    destruct i as [|msg]; cbn [deliver].
    + unfold SigInt. destruct (IH (set_stop true s)) as (s' & H & Hsv & Hq & Hs).
      exists s'. split; [exact H|]. rewrite Hsv, Hq, Hs. cbn.
      rewrite orb_true_r. repeat split.
    + rewrite OnControl_run.
      destruct (IH (enqueued [msg] s)) as (s' & H & Hsv & Hq & Hs).
      exists s'. split; [exact H|]. rewrite Hsv, Hq, Hs. cbn.
      rewrite <- app_assoc. repeat split.
Qed.




(** *** Bring-up and shutdown, subsystem by subsystem *)

Lemma skipn_length_app {A} (l l' : list A) : skipn (length l) (l ++ l') = l'.
Proof. induction l; simpl; auto. Qed.

Lemma LoadImpl_run d s :
  loadable d = true ->
  exists s',
    LoadImpl d s = Ok true s' /\
    trace s' = trace s ++ load_calls d (g_next (phys s)) /\
    stop s' = stop s /\ masterp s' = true.
Proof.
  intros Hload. destruct s as [st q ql [ws n] sch dk tr ms lb].
  unfold loadable in Hload.
  unfold LoadImpl, load_calls, new_Master, master.Init, master.RunThread,
    gazebo.load, sensors.load, physics.load, transport.node_Init,
    transport.node_Subscribe, transport.node_Advertise, gazebo.run.
  destruct (root_world d) as [e|].
  - unfold physics.create_world, physics.load_world, try_catch.
    destruct (elem_error e); [discriminate|]. exec_server.
    eexists. split; [reflexivity|]. cbn [trace stop masterp app].
    rewrite <- !app_assoc. repeat split.
  - exec_server. eexists. split; [reflexivity|]. cbn [trace stop masterp app].
    rewrite <- !app_assoc. repeat split.
Qed.

Lemma LoadImpl_rejected d s e what :
  root_world d = Some e -> elem_error e = Some what ->
  exists s',
    LoadImpl d s
    = Fault (Exception ("Failed to load the World" ++ endl ++ what)) s' /\
    trace s' = trace s ++ failed_load_calls (g_next (phys s)) /\
    stop s' = stop s /\ masterp s' = true /\
    disk s' = disk s /\ controlMsgs s' = controlMsgs s.
Proof.
  intros Hroot Herr. destruct s as [st q ql [ws n] sch dk tr ms lb].
  unfold LoadImpl, failed_load_calls, new_Master, master.Init, master.RunThread,
    gazebo.load, sensors.load, physics.load.
  rewrite Hroot.
  unfold physics.create_world, physics.load_world, try_catch, gzthrow.
  rewrite Herr. exec_server.
  eexists. split; [reflexivity|]. cbn [trace stop masterp disk controlMsgs app].
  rewrite <- !app_assoc. repeat split.
Qed.

(** Whether it goes through or not, [LoadImpl] leaves the stop flag
    alone and has brought the four subsystems up. *)
Lemma LoadImpl_any d s :
  stop (final (LoadImpl d s)) = stop s /\
  flat_map brought_up (added_calls (LoadImpl d) s)
  = [Broker; Plugins; SensorManager; Worlds].
Proof.
  unfold added_calls.
  destruct (loadable d) eqn:Hload.
  - destruct (LoadImpl_run d s Hload) as (s' & H & Ht & Hs & _).
    rewrite H. cbn [final]. split; [exact Hs|].
    rewrite Ht, skipn_length_app. unfold load_calls.
    destruct (root_world d); reflexivity.
  - unfold loadable in Hload. destruct (root_world d) as [e|] eqn:Hroot;
      [|discriminate].
    destruct (elem_error e) as [what|] eqn:Herr; [|discriminate].
    destruct (LoadImpl_rejected d s e what Hroot Herr) as (s' & H & Ht & Hs & _).
    rewrite H. cbn [final]. split; [exact Hs|].
    rewrite Ht, skipn_length_app. reflexivity.
Qed.

Lemma bring_up_order d w :
  flat_map brought_up (load_calls d w) = [Broker; Plugins; SensorManager; Worlds].
Proof.
  unfold load_calls. destruct (root_world d); reflexivity.
Qed.

Lemma LoadImpl_added d s :
  loadable d = true ->
  added_calls (LoadImpl d) s = load_calls d (g_next (phys s)).
Proof.
  intros Hload. unfold added_calls.
  destruct (LoadImpl_run d s Hload) as (s' & H & Ht & _).
  rewrite H. cbn [final]. rewrite Ht. apply skipn_length_app.
Qed.

(** *** The master pointer *)

Lemma keeps_master_bind {A B} (c : M A) (k : A -> M B) :
  keeps_master c -> (forall a, keeps_master (k a)) -> keeps_master (bind c k).
Proof.
  intros Hc Hk s. unfold bind. specialize (Hc s).
  destruct (c s) as [a s1|w s1]; cbn [final] in *.
  - rewrite (Hk a s1). exact Hc.
  - exact Hc.
Qed.

Lemma keeps_master_OpenWorld f : keeps_master (OpenWorld f).
Proof.
  intros s.
  destruct (OpenWorld_cases f s)
    as [(c & H & _)|[(e & _ & _ & H)|[(d & _ & _ & _ & H)|(d & w & _ & _ & H)]]];
    rewrite H; reflexivity.
Qed.

Lemma keeps_master_process_msg m : keeps_master (process_msg m).
Proof.
  assert (Hreload : forall f, keeps_master (reload_action f)).
  { intros f. apply keeps_master_bind; [apply keeps_master_OpenWorld|].
    intros b s. reflexivity. }
  destruct (sc_save_world_name m) as [name|] eqn:Hs.
  - rewrite (process_msg_save m name Hs). intros s.
    destruct (sc_save_filename m) as [f|].
    + destruct (physics.find_world name (phys s)) as [x|] eqn:Hfind.
      * destruct (save_action_found name f s x Hfind) as (y & _ & H).
        rewrite H. reflexivity.
      * rewrite (save_action_absent_world name f s Hfind). reflexivity.
    + rewrite save_action_no_filename. reflexivity.
  - destruct (asks_new_world m) eqn:Hn.
    + rewrite (process_msg_new m Hs Hn). apply Hreload.
    + destruct (sc_open_filename m) as [f|] eqn:Ho.
      * rewrite (process_msg_open m f Hs Hn Ho). apply Hreload.
      * rewrite (process_msg_none m Hs Hn Ho). intros s. reflexivity.
Qed.

Lemma keeps_master_for_each l : keeps_master (for_each l).
Proof.
  induction l as [|m l IH]; [intros s; reflexivity|].
  cbn [for_each]. apply keeps_master_bind; [intros s; reflexivity|intros _].
  apply keeps_master_bind; [apply keeps_master_process_msg|intros _; exact IH].
Qed.

Lemma keeps_master_deliver_all l : keeps_master (deliver_all l).
Proof.
  induction l as [|i l IH]; [intros s; reflexivity|].
  cbn [deliver_all]. apply keeps_master_bind; [|intros _; exact IH].
  intros s. destruct i as [|msg]; [reflexivity|].
  cbn [deliver]. rewrite OnControl_run. reflexivity.
Qed.

Lemma keeps_master_turn arrivals : keeps_master (turn arrivals).
Proof.
  unfold turn. apply keeps_master_bind.
  - intros s. unfold ProcessControlMsgs.
    apply (keeps_master_bind (for_each (controlMsgs s))
             (fun _ => touch Clear ;; fun s' => Ok tt (set_controlMsgs [] s'))).
    + apply keeps_master_for_each.
    + intros _. apply keeps_master_bind; intros; intros s0; reflexivity.
  - intros _. apply keeps_master_bind; [intros s; reflexivity|intros _].
    apply keeps_master_bind; [intros s; reflexivity|intros _].
    apply keeps_master_deliver_all.
Qed.

Lemma while_not_stop_master script : forall s s',
  while_not_stop script s = Some (Ok tt s') -> masterp s' = masterp s.
Proof.
  induction script as [|arrivals script IH]; intros s s' H;
    cbn [while_not_stop] in H; destruct (stop s).
  - injection H as <-. reflexivity.
  - discriminate.
  - injection H as <-. reflexivity.
  - fold (turn arrivals) in H. pose proof (keeps_master_turn arrivals s) as Hk.
    destruct (turn arrivals s) as [[] s1|w s1]; [|discriminate].
    cbn [final] in Hk. rewrite (IH s1 s' H). exact Hk.
Qed.

(** *** Start-up and shutdown *)

Lemma forallb_set_running b ws :
  forallb named_default (map (physics.set_running b) ws)
  = forallb named_default ws.
Proof.
  induction ws as [|x ws IH]; [reflexivity|]. cbn [map forallb]. rewrite IH.
  reflexivity.
Qed.

Lemma Run_startup arrivals s :
  exists s1,
    (sensors.run_once true ;; physics.run_worlds ;; deliver_all arrivals) s
    = Ok tt s1 /\
    trace s1 = trace s ++ startup_calls /\
    stop s1 = stop s || existsb is_interrupt arrivals /\
    controlMsgs s1 = controlMsgs s ++ control_of arrivals /\
    serviceable s1 = serviceable s /\ masterp s1 = masterp s.
Proof.
  destruct (startup_run s) as (s0 & H0 & Ht0 & Hs0 & Hq0 & Hd0 & Hw0).
  assert (Hn0 : forallb named_default (g_worlds (phys s0))
                = forallb named_default (g_worlds (phys s))).
  { revert H0. destruct s as [st q ql [ws n] sch dk tr ms lb].
    unfold sensors.run_once, physics.run_worlds. exec_server.
    intros H. injection H as <-. cbn [phys g_worlds]. apply forallb_set_running. }
  assert (Hm0 : masterp s0 = masterp s).
  { revert H0. destruct s as [st q ql [ws n] sch dk tr ms lb].
    unfold sensors.run_once, physics.run_worlds. exec_server.
    intros H. injection H as <-. reflexivity. }
  assert (Hrun : (sensors.run_once true ;; physics.run_worlds ;;
                  deliver_all arrivals) s = deliver_all arrivals s0).
  { revert H0. unfold bind. destruct (sensors.run_once true s) as [u sa|w sa];
      [|discriminate].
    destruct (physics.run_worlds sa) as [u' sb|w sb]; [|discriminate].
    intros H. injection H as _ Heq. subst sb. reflexivity. }
  destruct (deliver_all_run arrivals s0) as (s1 & H1 & Hsv1 & Hq1 & Hs1).
  pose proof (keeps_master_deliver_all arrivals s0) as Hm1.
  destruct (traced_deliver_all arrivals s0) as (calls & Ht1 & _).
  rewrite H1 in Hm1, Ht1. cbn [final] in Hm1, Ht1.
  exists s1. rewrite Hrun. split; [exact H1|].
  assert (Hcalls : calls = []).
  { clear - H1 Ht1. revert s0 s1 H1 Ht1.
    induction arrivals as [|i l IH]; intros s0 s1 H1 Ht1.
    - injection H1 as <-. rewrite <- (app_nil_r (trace s0)) in Ht1 at 1.
      apply app_inv_head in Ht1. symmetry. exact Ht1.
    - cbn [deliver_all] in H1. unfold bind in H1.
      destruct i as [|msg]; cbn [deliver] in H1.
      + unfold SigInt in H1. apply (IH _ _ H1). exact Ht1.
      + rewrite OnControl_run in H1. apply (IH _ _ H1). exact Ht1. }
  subst calls. rewrite app_nil_r in Ht1.
  rewrite Ht1, Ht0, Hs1, Hs0, Hq1, Hq0, Hsv1, Hm1, Hm0.
  repeat (split; [reflexivity|]). split; [|reflexivity].
  unfold serviceable. rewrite Hd0, Hw0, Hn0.
  destruct (physics.find_world "default" (phys s)); reflexivity.
Qed.

Lemma Run_shutdown s :
  exists s',
    trace s' = trace s ++ [PhysicsStopWorlds; SensorsStop; GazeboStop] /\
    stop s' = stop s /\ controlMsgs s' = controlMsgs s /\
    (physics.stop_worlds ;; sensors.stop ;; gazebo.stop ;; master_Stop) s
    = if masterp s
      then Ok tt (set_trace (trace s' ++ [MasterStop]) s')
      else Fault NullDeref s'.
Proof.
  destruct s as [st q ql [ws n] sch dk tr ms lb].
  unfold physics.stop_worlds, sensors.stop, gazebo.stop, master_Stop, master.Stop.
  exists (mkState st q ql (mkPhysics (map (physics.set_running false) ws) n)
            sch dk (tr ++ [PhysicsStopWorlds; SensorsStop; GazeboStop]) ms lb).
  cbn [trace stop controlMsgs masterp].
  repeat (split; [reflexivity|]).
  destruct ms; exec_server; rewrite <- !app_assoc; reflexivity.
Qed.

Lemma script_split script :
  interrupted script = existsb is_interrupt (hd [] script) || interrupted (tl script) /\
  script_addressed script
  = forallb addressed (control_of (hd [] script)) && script_addressed (tl script).
Proof.
  destruct script as [|arrivals script]; split; reflexivity.
Qed.



Lemma LoadFile_stop f s : stop (final (LoadFile f s)) = stop s.
Proof.
  destruct s as [st q ql p sch dk tr ms lb].
  unfold LoadFile. cbn [disk]. destruct (find_file f dk); [|reflexivity].
  unfold sdf.init, sdf.readFile. exec_server.
  destruct sch; [|reflexivity].
  destruct (sdf.parse f dk) as [d|]; [|reflexivity].
  match goal with |- context [LoadImpl d ?s1] =>
    exact (proj1 (LoadImpl_any d s1)) end.
Qed.

(** C9: [Run] called with the stop flag set returns at once and does
    nothing: the state, and with it the recorded calls, is unchanged.
    The flag is set from construction on and through loading; [Init] is
    what clears it. *)
Theorem Run_returns_at_once_when_stopped :
  (forall script s, stop s = true -> Run script s = Some (Ok tt s)) /\
  (forall l m schema d, stop (Server_new l m schema d) = true) /\
  (forall f s, stop (final (LoadFile f s)) = stop s) /\
  (forall s, exists s', Init s = Ok tt s' /\ stop s' = false).
Proof.
  split; [|split; [|split]].
  - intros script s H. unfold Run. rewrite H. reflexivity.
  - reflexivity.
  - apply LoadFile_stop.
  - intros s. eexists. unfold Init, gazebo.init, sensors.init, physics.init_worlds.
    exec_server. split; reflexivity.
Qed.

Lemma Run_returns_at_once_when_stopped_witness :
  Run [[Control new_world_request]; [Interrupt]]
      (final (LoadFile "worlds/empty.world" (Server_new example_library false true example_disk)))
  = Some (Ok tt (final (LoadFile "worlds/empty.world" (Server_new example_library false true example_disk)))).
Proof.
  apply (proj1 Run_returns_at_once_when_stopped). reflexivity.
Defined.

(** ** The registry stays in order *)

Lemma registry_ok_OpenWorld f s :
  registry_ok (phys s) = true ->
  registry_ok (phys (final (OpenWorld f s))) = true.
Proof.
  intros Hreg.
  destruct (OpenWorld_cases f s)
    as [(c & H & _)|[(e & _ & _ & H)|[(d & _ & _ & _ & H)|(d & w & _ & _ & H)]]];
    rewrite H; cbn [final].
  - exact Hreg.
  - unfold reloaded, registry_ok. cbn. rewrite Nat.leb_refl. reflexivity.
  - unfold reloaded_blank, registry_ok. cbn. rewrite Nat.leb_refl. reflexivity.
  - unfold torn_down, registry_ok. cbn. rewrite Nat.leb_refl. reflexivity.
Qed.

Lemma registry_ok_process_msg m s :
  registry_ok (phys s) = true ->
  registry_ok (phys (final (process_msg m s))) = true.
Proof.
  intros Hreg.
  assert (Hreload : forall f,
             registry_ok (phys (final (reload_action f s))) = true).
  { intros f. unfold reload_action, bind, ret.
    pose proof (registry_ok_OpenWorld f s Hreg) as H.
    destruct (OpenWorld f s); exact H. }
  destruct (sc_save_world_name m) as [name|] eqn:Hs.
  - rewrite (process_msg_save m name Hs).
    destruct (sc_save_filename m) as [f|].
    + destruct (physics.find_world name (phys s)) as [x|] eqn:Hfind.
      * destruct (save_action_found name f s x Hfind) as (y & _ & H).
        rewrite H. exact Hreg.
      * rewrite (save_action_absent_world name f s Hfind). exact Hreg.
    + rewrite save_action_no_filename. exact Hreg.
  - destruct (asks_new_world m) eqn:Hn.
    + rewrite (process_msg_new m Hs Hn). apply Hreload.
    + destruct (sc_open_filename m) as [f|] eqn:Ho.
      * rewrite (process_msg_open m f Hs Hn Ho). apply Hreload.
      * rewrite (process_msg_none m Hs Hn Ho). exact Hreg.
Qed.

Lemma registry_ok_for_each l s :
  registry_ok (phys s) = true ->
  registry_ok (phys (final (for_each l s))) = true.
Proof.
  revert s. induction l as [|m l IH]; intros s Hreg; [exact Hreg|].
  cbn [for_each]. unfold bind, touch.
  pose proof (registry_ok_process_msg m
                (set_queue_log (queue_log s ++ [Iterate]) s) Hreg) as H.
  destruct (process_msg m _) as [u s1|w s1]; cbn [final] in *.
  - apply IH. exact H.
  - exact H.
Qed.

(** ** The two threads side by side *)

Import Interleaving.

Lemma run_app l1 l2 c :
  run (l1 ++ l2) c = match run l1 c with Some c' => run l2 c' | None => None end.
Proof.
  revert c. induction l1 as [|t l1 IH]; intros c; [reflexivity|].
  cbn [app run]. destruct (step t c); [apply IH|reflexivity].
Qed.

Lemma loop_alone_iterates rest : forall pre s s1 h cb,
  controlMsgs s = pre ++ rest ->
  for_each rest s = Ok tt s1 ->
  run (repeat LoopThread (S (length rest)))
      (mkConfig s h (AtElement (length pre)) cb)
  = Some (mkConfig s1 h AtClear cb).
Proof.
  induction rest as [|m rest IH]; intros pre s s1 h cb Hq Hrun.
  - injection Hrun as Heq. subst s1.
    cbn [length repeat run step step_loop loop server held callback].
    rewrite Hq, app_nil_r.
    rewrite (proj2 (nth_error_None pre (length pre))); [reflexivity|lia].
  - cbn [length repeat run step step_loop loop server held callback].
    rewrite Hq, nth_error_app2, Nat.sub_diag by lia. cbn [nth_error].
    cbn [for_each] in Hrun. unfold bind, touch in Hrun |- *.
    set (s0 := set_queue_log (queue_log s ++ [Iterate]) s) in *.
    destruct (framed_process_msg m s0) as (c1 & _ & _ & _ & Hq0 & _).
    destruct (process_msg m s0) as [[] s2|w s2]; [|discriminate].
    cbn [final] in Hq0.
    replace (S (length pre)) with (length (pre ++ [m]))
      by (rewrite length_app; simpl; lia).
    apply IH; [|exact Hrun].
    rewrite Hq0. subst s0. cbn [controlMsgs set_queue_log].
    rewrite Hq, <- app_assoc. reflexivity.
Qed.

(** Left alone, the loop thread does what [ProcessControlMsgs] does. *)
Lemma loop_alone_is_ProcessControlMsgs s s' h cb :
  ProcessControlMsgs s = Ok tt s' ->
  run (repeat LoopThread (length (controlMsgs s) + 2))
      (mkConfig s h (AtElement 0) cb)
  = Some (mkConfig s' h Returned cb).
Proof.
  unfold ProcessControlMsgs. unfold bind at 1.
  destruct (for_each (controlMsgs s) s) as [[] s1|w s1] eqn:Hrun; [|discriminate].
  intros Hclear.
  replace (length (controlMsgs s) + 2) with (S (length (controlMsgs s)) + 1) by lia.
  rewrite repeat_app, run_app.
  pose proof (loop_alone_iterates (controlMsgs s) [] s s1 h cb eq_refl Hrun) as Hit.
  cbn [length] in Hit. rewrite Hit.
  cbn [repeat run step step_loop loop server held callback].
  rewrite Hclear. reflexivity.
Qed.

(** The transport thread alone does what [OnControl] does. *)
Lemma callback_alone_is_OnControl msg s lp :
  run [CallbackThread; CallbackThread; CallbackThread]
      (mkConfig s false lp (Entering msg))
  = Some (mkConfig (final (OnControl msg s)) false lp Left).
Proof. reflexivity. Qed.

(** A message can be appended, under the lock, between the last test of
    the iterator and [clear()]: it is dropped without having been
    processed. *)
Lemma message_lost :
  exists c,
    run [LoopThread; CallbackThread; CallbackThread; CallbackThread; LoopThread]
        (mkConfig running_server false (AtElement 0) (Entering new_world_request))
    = Some c /\
    loop c = Returned /\ callback c = Left /\
    controlMsgs (server c) = [] /\
    trace (server c) = trace running_server /\
    queue_log (server c) = [Lock; PushBack; Unlock; Clear].
Proof. eexists. split; [vm_compute; reflexivity|]. repeat split. Qed.

(** * Further properties *)

(** ** Loading *)


(** X1: [LoadFile] answers [false] when the path holds nothing, when
    the parser's schema is missing or when the file is no description;
    it has then logged one error and started nothing: no call on the
    master, the plugins, the sensors, the physics or the transport node,
    and the registry and the stop flag are as before. *)
Theorem LoadFile_failure_starts_nothing filename s :
  load_fails filename s = true ->
  exists calls text,
    LoadFile filename s = Ok false (set_trace (trace s ++ calls ++ [GzErr text]) s) /\
    existsb starts_something calls = false /\
    (calls = [] \/ calls = [SdfInit] \/ calls = [SdfInit; SdfReadFile filename]).
Proof.
  unfold load_fails, LoadFile. intros Hfail.
  destruct (find_file filename (disk s)) as [c|] eqn:Hfind.
  - unfold sdf.init, sdf.readFile. destruct s as [st q ql p sch dk tr ms lb].
    cbn [disk sdf_schema] in *. exec_server.
    destruct sch; cbn [negb orb] in Hfail.
    + destruct (sdf.parse filename dk) as [d|]; [discriminate|].
      exists [SdfInit; SdfReadFile filename]. eexists.
      split; [|split; [reflexivity|auto]].
      rewrite <- !app_assoc. reflexivity.
    + exists [SdfInit]. eexists.
      split; [|split; [reflexivity|auto]].
      rewrite <- !app_assoc. reflexivity.
  - exists []. eexists. split; [|split; [reflexivity|auto]].
    unfold bind, gzerr, emit, ret. reflexivity.
Qed.

Lemma LoadFile_failure_starts_nothing_witness :
  exists calls text,
    LoadFile "broken.world" (Server_new example_library false true example_disk)
    = Ok false (set_trace (trace (Server_new example_library false true example_disk)
                           ++ calls ++ [GzErr text])
                  (Server_new example_library false true example_disk)) /\
    existsb starts_something calls = false /\
    (calls = [] \/ calls = [SdfInit] \/ calls = [SdfInit; SdfReadFile "broken.world"]).
Proof.
  apply (LoadFile_failure_starts_nothing "broken.world" (Server_new example_library false true example_disk)).
  reflexivity.
Defined.



(** X22: when the file opens and parses but the physics subsystem
    rejects its world, [LoadFile] does not return: [LoadImpl] catches
    the loader's exception and raises "Failed to load the World" with
    its message.  By then the master has been created, initialised and
    started, the plugin, sensor and physics subsystems are loaded and a
    blank world has been created: the transport node is never
    initialised and [gazebo::run] never called, and the stop flag is as
    it was. *)
Theorem LoadFile_rejected filename s e what :
  load_fails filename s = false ->
  option_map root_world (sdf.parse filename (disk s)) = Some (Some e) ->
  elem_error e = Some what ->
  exists s',
    LoadFile filename s
    = Fault (Exception ("Failed to load the World" ++ endl ++ what)) s' /\
    trace s' = trace s ++ [SdfInit; SdfReadFile filename]
                       ++ failed_load_calls (g_next (phys s)) /\
    g_worlds (phys s') =
      g_worlds (phys s) ++ [mkWorld (g_next (phys s)) "" [] false] /\
    stop s' = stop s /\ masterp s' = true.
Proof.
  unfold load_fails. intros Hok Hparse Herr.
  destruct s as [st q ql [ws n] sch dk tr ms lb].
  cbn [disk sdf_schema phys trace stop g_next g_worlds] in *.
  destruct (find_file filename dk) as [c|] eqn:Hfind; [|discriminate].
  destruct sch; [|discriminate].
  destruct (sdf.parse filename dk) as [d|] eqn:Hp; [|discriminate].
  cbn [option_map] in Hparse. injection Hparse as Hroot.
  unfold LoadFile. cbn [disk]. rewrite Hfind.
  unfold sdf.init, sdf.readFile. exec_server. rewrite Hp.
  unfold LoadImpl, failed_load_calls, new_Master, master.Init, master.RunThread,
    gazebo.load, sensors.load, physics.load.
  rewrite Hroot.
  unfold physics.create_world, physics.load_world, try_catch, gzthrow.
  rewrite Herr. exec_server.
  eexists. split; [reflexivity|].
  cbn [trace stop masterp phys g_worlds app].
  rewrite <- !app_assoc. repeat split.
Qed.

Lemma LoadFile_rejected_witness :
  exists s',
    LoadFile "rejected.world"
      (Server_new example_library false true reload_disk)
    = Fault (Exception ("Failed to load the World" ++ endl
                        ++ "joint without parent")) s' /\
    trace s' = trace (Server_new example_library false true reload_disk)
               ++ [SdfInit; SdfReadFile "rejected.world"]
               ++ failed_load_calls
                    (g_next (phys (Server_new example_library false true
                                     reload_disk))) /\
    g_worlds (phys s') =
      g_worlds (phys (Server_new example_library false true reload_disk))
      ++ [mkWorld (g_next (phys (Server_new example_library false true
                                   reload_disk))) "" [] false] /\
    stop s' = stop (Server_new example_library false true reload_disk) /\
    masterp s' = true.
Proof.
  apply (LoadFile_rejected "rejected.world"
           (Server_new example_library false true reload_disk)
           rejected_element "joint without parent"); reflexivity.
Defined.

(** ** What a drain adds to the record *)

Lemma notice_pairs_app k1 k2 :
  notice_pairs (k1 + k2) = notice_pairs k1 ++ notice_pairs k2.
Proof.
  induction k1 as [|k1 IH]; [reflexivity|]. cbn. rewrite IH. reflexivity.
Qed.

Lemma drains_weaken {A} b b' (c : M A) : b <= b' -> drains b c -> drains b' c.
Proof.
  intros Hb H s. destruct (H s) as (calls & k & Ht & Hc & Hk & Hn & Hs & Hw).
  exists calls, k. repeat split; try assumption. lia.
Qed.

Lemma drains_ret {A} (a : A) : drains 0 (ret a).
Proof.
  intros s. exists [], 0. cbn. rewrite app_nil_r.
  repeat split; auto.
Qed.

Lemma drains_bind {A B} b1 b2 (c : M A) (k : A -> M B) :
  drains b1 c -> (forall a, drains b2 (k a)) -> drains (b1 + b2) (bind c k).
Proof.
  intros Hc Hk s. unfold bind.
  destruct (Hc s) as (c1 & k1 & Ht & Hcc & Hk1 & Hn & Hs & Hw).
  destruct (c s) as [a s1|w s1] eqn:Hrun; cbn [final] in *.
  - destruct (Hk a s1) as (c2 & k2 & Ht2 & Hcc2 & Hk2 & Hn2 & Hs2 & Hw2).
    destruct Hn as [Hn|[_ Hn]]; [|exfalso; apply (Hn a s1); reflexivity].
    exists (c1 ++ c2), (k1 + k2).
    rewrite Ht2, Ht, app_assoc, forallb_app, Hcc, Hcc2, notifications_app, Hn,
      notice_pairs_app.
    split; [reflexivity|]. split; [reflexivity|]. split; [lia|].
    split; [|split; [congruence|auto]].
    destruct Hn2 as [Hn2|[Hn2 Hf]]; rewrite Hn2.
    + left. reflexivity.
    + right. split; [rewrite app_assoc; reflexivity|exact Hf].
  - exists c1, k1. split; [exact Ht|]. split; [exact Hcc|]. split; [lia|].
    split; [|split; assumption].
    destruct Hn as [Hn|[Hn _]]; [left; exact Hn|right].
    split; [exact Hn|]. intros a s'. discriminate.
Qed.

Lemma drains_OpenWorld f : drains 1 (OpenWorld f).
Proof.
  intros s.
  destruct (OpenWorld_cases f s)
    as [(c & H & Hn & Hc)|[(e & _ & _ & H)|[(d & _ & _ & _ & H)|(d & w & _ & _ & H)]]].
  - exists c, 0. rewrite H. cbn [final trace set_trace stop phys].
    split; [reflexivity|].
    split; [destruct Hc; subst c; reflexivity|].
    split; [lia|]. split; [left; exact Hn|]. split; [reflexivity|auto].
  - exists (reload_calls f (g_next (phys s))), 1. rewrite H.
    unfold reloaded. cbn. repeat split; auto.
  - exists (reload_calls f (g_next (phys s))), 1. rewrite H.
    unfold reloaded_blank. cbn. repeat split; auto.
  - eexists. exists 0. rewrite H. unfold torn_down.
    cbn [final trace set_trace set_phys stop phys g_worlds length].
    split; [reflexivity|]. split; [reflexivity|]. split; [lia|].
    split; [|split; [reflexivity|auto]].
    right. split; [reflexivity|]. intros a s'. discriminate.
Qed.

Lemma drains_save_action name filename : drains 0 (save_action name filename).
Proof.
  intros s. destruct filename as [f|].
  - destruct (physics.find_world name (phys s)) as [x|] eqn:Hfind.
    + destruct (save_action_found name f s x Hfind) as (y & _ & H). rewrite H.
      eexists. exists 0. cbn [final trace set_disk set_trace stop phys].
      repeat split; auto.
    + rewrite (save_action_absent_world name f s Hfind).
      eexists. exists 0. unfold looked_up. cbn [final trace set_trace stop phys].
      repeat split; auto.
  - rewrite save_action_no_filename.
    eexists. exists 0. cbn [final trace set_trace stop phys].
    repeat split; auto.
Qed.

Lemma drains_process_msg m : drains 1 (process_msg m).
Proof.
  assert (Hreload : forall f, drains 1 (reload_action f)).
  { intros f. apply (drains_bind 1 0); [apply drains_OpenWorld|].
    intros a. apply drains_ret. }
  destruct (sc_save_world_name m) as [name|] eqn:Hs.
  - rewrite (process_msg_save m name Hs).
    apply (drains_weaken 0); [lia|apply drains_save_action].
  - destruct (asks_new_world m) eqn:Hn.
    + rewrite (process_msg_new m Hs Hn). apply Hreload.
    + destruct (sc_open_filename m) as [f|] eqn:Ho.
      * rewrite (process_msg_open m f Hs Hn Ho). apply Hreload.
      * rewrite (process_msg_none m Hs Hn Ho).
        apply (drains_weaken 0); [lia|apply drains_ret].
Qed.

Lemma drains_silent b (f : State -> State) :
  (forall s, trace (f s) = trace s) -> (forall s, stop (f s) = stop s) ->
  (forall s, phys (f s) = phys s) ->
  drains b (fun s => Ok tt (f s)).
Proof.
  intros Ht Hs Hp s. exists [], 0. cbn [final].
  rewrite Ht, Hs, Hp, app_nil_r. repeat split; auto. lia.
Qed.

Lemma drains_for_each l : drains (length l) (for_each l).
Proof.
  induction l as [|m l IH]; cbn [for_each length].
  - apply drains_ret.
  - apply (drains_bind 0 (S (length l)));
      [apply drains_silent; reflexivity|intros _].
    apply (drains_bind 1 (length l)); [apply drains_process_msg|intros _; exact IH].
Qed.

Lemma drains_ProcessControlMsgs s :
  exists calls k,
    trace (final (ProcessControlMsgs s)) = trace s ++ calls /\
    forallb control_call calls = true /\
    k <= length (controlMsgs s) /\
    (notifications calls = notice_pairs k \/
     (notifications calls = notice_pairs k ++ [removal_notice] /\
      forall a s', ProcessControlMsgs s <> Ok a s')) /\
    stop (final (ProcessControlMsgs s)) = stop s /\
    (length (g_worlds (phys s)) <= 1 ->
     length (g_worlds (phys (final (ProcessControlMsgs s)))) <= 1).
Proof.
  assert (H : drains (length (controlMsgs s) + 0)
                (for_each (controlMsgs s) ;;
                 touch Clear ;;
                 fun s' => Ok tt (set_controlMsgs [] s'))).
  { apply drains_bind; [apply drains_for_each|intros _].
    apply (drains_bind 0 0); [|intros _]; apply drains_silent; reflexivity. }
  rewrite Nat.add_0_r in H. exact (H s).
Qed.

(** X3: no batch of control messages, whether it runs to the end or
    faults, sets or clears the stop flag, and the calls of a drain are
    lookups, saves, logged errors and the calls of reloads only: a
    control message cannot stop the server, nor start, initialise or
    stop a subsystem. *)
Theorem drain_leaves_lifecycle_alone s :
  stop (final (ProcessControlMsgs s)) = stop s /\
  exists calls,
    trace (final (ProcessControlMsgs s)) = trace s ++ calls /\
    forallb control_call calls = true.
Proof.
  destruct (drains_ProcessControlMsgs s) as (calls & k & Ht & Hc & _ & _ & Hs & _).
  split; [exact Hs|]. exists calls. split; assumption.
Qed.

(** X4: the notifications a drain publishes come in pairs, removal then
    creation, at most one pair per queued message; a lone removal notice
    can only be the last one of a drain that faulted. *)
Theorem drain_notifications_paired s :
  exists k,
    k <= length (controlMsgs s) /\
    (notifications (trace (final (ProcessControlMsgs s)))
     = notifications (trace s) ++ notice_pairs k \/
     (notifications (trace (final (ProcessControlMsgs s)))
      = notifications (trace s) ++ notice_pairs k ++ [removal_notice] /\
      forall s', ProcessControlMsgs s <> Ok tt s')).
Proof.
  destruct (drains_ProcessControlMsgs s) as (calls & k & Ht & _ & Hk & Hn & _).
  exists k. split; [exact Hk|]. rewrite Ht, notifications_app.
  destruct Hn as [Hn|[Hn Hf]]; rewrite Hn; [left; reflexivity|right].
  split; [reflexivity|]. intros s'. apply Hf.
Qed.

(** X5: a drain never leaves two worlds behind: if the registry held at
    most one world before, it holds at most one after, whatever the
    messages and whether or not they ran to the end. *)
Theorem drain_keeps_single_world s :
  length (g_worlds (phys s)) <= 1 ->
  length (g_worlds (phys (final (ProcessControlMsgs s)))) <= 1.
Proof.
  destruct (drains_ProcessControlMsgs s) as (calls & k & _ & _ & _ & _ & _ & Hw).
  exact Hw.
Qed.

Lemma drain_keeps_single_world_witness :
  length (g_worlds (phys (final (ProcessControlMsgs
    (enqueued [new_world_request; open_request "worlds/empty.world";
               save_request "default" (Some "copy.world")] running_server))))) <= 1.
Proof.
  apply (drain_keeps_single_world
           (enqueued [new_world_request; open_request "worlds/empty.world";
                      save_request "default" (Some "copy.world")] running_server)).
  cbn. lia.
Defined.

(** X6: a drain that returns has emptied the queue, and a further drain
    right after it makes no call and changes nothing but the record of
    its own [clear()]; so does a drain of a queue that is empty to begin
    with. *)
Theorem drain_then_drain s s' :
  ProcessControlMsgs s = Ok tt s' ->
  controlMsgs s' = [] /\
  ProcessControlMsgs s' = Ok tt (set_queue_log (queue_log s' ++ [Clear]) s').
Proof.
  unfold ProcessControlMsgs at 1. unfold bind, touch.
  destruct (for_each (controlMsgs s) s) as [[] s1|w s1]; [|discriminate].
  intros H. injection H as H. subst s'.
  split; [reflexivity|].
  unfold ProcessControlMsgs, bind, touch. cbn [controlMsgs set_controlMsgs for_each].
  unfold ret. reflexivity.
Qed.

Lemma drain_then_drain_witness :
  controlMsgs (final (ProcessControlMsgs
                        (enqueued [new_world_request] running_server))) = [] /\
  ProcessControlMsgs (final (ProcessControlMsgs
                               (enqueued [new_world_request] running_server)))
  = Ok tt (set_queue_log
             (queue_log (final (ProcessControlMsgs
                                  (enqueued [new_world_request] running_server)))
              ++ [Clear])
             (final (ProcessControlMsgs
                       (enqueued [new_world_request] running_server)))).
Proof.
  apply (drain_then_drain (enqueued [new_world_request] running_server)).
  vm_compute. reflexivity.
Defined.

(** X7: messages handed to [OnControl] join the queue behind those it
    holds, in the order of arrival; when a world named "default" is
    live and no live world has another name, every description on disk
    holds a world named "default" that the physics subsystem accepts,
    and every save request with a filename names "default", one drain
    processes them all, first queued first, each to completion, and
    leaves the queue empty. *)
Theorem drain_processes_all_in_order msgs s :
  serviceable s = true ->
  forallb addressed (controlMsgs s ++ msgs) = true ->
  exists s0 s1 s',
    enqueue msgs s = Ok tt s0 /\
    controlMsgs s0 = controlMsgs s ++ msgs /\
    trace s0 = trace s /\ phys s0 = phys s /\
    executes (controlMsgs s ++ msgs) s0 s1 /\
    ProcessControlMsgs s0 = Ok tt s' /\
    controlMsgs s' = [] /\ trace s' = trace s1 /\ phys s' = phys s1.
Proof.
  intros Hsv Hl.
  destruct (for_each_completes (controlMsgs s ++ msgs) (enqueued msgs s))
    as (s1 & H1 & Hsv1); [exact Hsv|exact Hl|].
  exists (enqueued msgs s), s1. eexists.
  split; [apply enqueue_run|]. repeat (split; [reflexivity|]).
  split; [apply for_each_executes; exact H1|].
  unfold ProcessControlMsgs, bind, touch.
  change (controlMsgs (enqueued msgs s)) with (controlMsgs s ++ msgs).
  rewrite H1. repeat split.
Qed.

Lemma drain_processes_all_in_order_witness :
  exists s0 s1 s',
    enqueue [save_request "default" None; new_world_request;
             save_request "default" (Some "copy.world");
             open_request "copy.world"] running_server = Ok tt s0 /\
    controlMsgs s0 = controlMsgs running_server ++
                     [save_request "default" None; new_world_request;
                      save_request "default" (Some "copy.world");
                      open_request "copy.world"] /\
    trace s0 = trace running_server /\ phys s0 = phys running_server /\
    executes (controlMsgs running_server ++
              [save_request "default" None; new_world_request;
               save_request "default" (Some "copy.world");
               open_request "copy.world"]) s0 s1 /\
    ProcessControlMsgs s0 = Ok tt s' /\
    controlMsgs s' = [] /\ trace s' = trace s1 /\ phys s' = phys s1.
Proof.
  apply (drain_processes_all_in_order
           [save_request "default" None; new_world_request;
            save_request "default" (Some "copy.world");
            open_request "copy.world"] running_server); reflexivity.
Defined.

(** X8: [OpenWorld] tears the old world down before it loads the new
    one, and nothing catches what the loader raises.  For a file that
    parses and holds a world the physics subsystem rejects, it
    publishes the removal notice, stops and removes the worlds, removes
    the sensors, clears the buffers and creates a world, and ends on
    the loader's exception: no creation notice follows, the old worlds
    are gone, the registry holds a blank world that does not run, and
    the stop flag, the queue and the disk are as before. *)
Theorem OpenWorld_rejected_source filename s e what :
  valid_source filename s = Some e ->
  elem_error e = Some what ->
  exists s',
    OpenWorld filename s = Fault (Exception what) s' /\
    trace s' = trace s ++
      [SdfInit; SdfReadFile filename; Publish removal_notice;
       PhysicsStopWorlds; PhysicsRemoveWorlds; SensorsRemove; ClearBuffers;
       CreateWorld (g_next (phys s)); LoadWorld (g_next (phys s))] /\
    notifications (trace s') = notifications (trace s) ++ [removal_notice] /\
    g_worlds (phys s') = [mkWorld (g_next (phys s)) "" [] false] /\
    stop s' = stop s /\ controlMsgs s' = controlMsgs s /\ disk s' = disk s.
Proof.
  intros Hvalid Herr.
  destruct (valid_source_inv _ _ _ Hvalid) as (Hschema & d & Hparse & Hroot).
  exists (torn_down filename s).
  rewrite (OpenWorld_parsed filename s d Hschema Hparse), Hroot, Herr.
  split; [reflexivity|].
  unfold torn_down, teardown_calls.
  cbn [trace set_trace set_phys phys g_worlds stop controlMsgs disk].
  split; [reflexivity|]. split; [rewrite notifications_app; reflexivity|].
  repeat split.
Qed.

Lemma OpenWorld_rejected_source_witness :
  exists s',
    OpenWorld "rejected.world" reload_server
    = Fault (Exception "joint without parent") s' /\
    trace s' = trace reload_server ++
      [SdfInit; SdfReadFile "rejected.world"; Publish removal_notice;
       PhysicsStopWorlds; PhysicsRemoveWorlds; SensorsRemove; ClearBuffers;
       CreateWorld (g_next (phys reload_server));
       LoadWorld (g_next (phys reload_server))] /\
    notifications (trace s') =
      notifications (trace reload_server) ++ [removal_notice] /\
    g_worlds (phys s') = [mkWorld (g_next (phys reload_server)) "" [] false] /\
    stop s' = stop reload_server /\
    controlMsgs s' = controlMsgs reload_server /\
    disk s' = disk reload_server.
Proof.
  apply (OpenWorld_rejected_source "rejected.world" reload_server
           rejected_element "joint without parent"); reflexivity.
Defined.

(** ** Leaving the loop *)

Lemma ProcessControlMsgs_empties s s' :
  ProcessControlMsgs s = Ok tt s' -> controlMsgs s' = [] /\ stop s' = stop s.
Proof.
  intros H.
  destruct (drains_ProcessControlMsgs s) as (_ & _ & _ & _ & _ & _ & Hs & _).
  rewrite H in Hs. cbn [final] in Hs. split; [|exact Hs].
  unfold ProcessControlMsgs, bind, touch in H.
  destruct (for_each (controlMsgs s) s) as [[] s1|w s1]; [|discriminate].
  injection H as H. subst s'. reflexivity.
Qed.

Lemma turn_ends arrivals s s1 :
  turn arrivals s = Ok tt s1 ->
  stop s1 = stop s || existsb is_interrupt arrivals /\
  controlMsgs s1 = control_of arrivals.
Proof.
  unfold turn. unfold bind at 1.
  destruct (ProcessControlMsgs s) as [[] s0|w s0] eqn:Hdrain; [|discriminate].
  destruct (ProcessControlMsgs_empties s s0 Hdrain) as [Hq Hs].
  unfold sensors.run_once, common.Time_MSleep, emit, bind.
  set (s2 := set_trace _ _).
  destruct (deliver_all_run arrivals s2) as (s' & H & _ & Hq' & Hs').
  rewrite H. intros Heq. injection Heq as Heq. subst s'.
  rewrite Hs', Hq'. subst s2. cbn [stop controlMsgs set_trace].
  rewrite Hs, Hq. split; reflexivity.
Qed.

Lemma while_not_stop_needs_interrupt script s s' :
  while_not_stop script s = Some (Ok tt s') ->
  stop s = false -> interrupted script = true.
Proof.
  revert s. induction script as [|arrivals script IH]; intros s H Hstop;
    cbn [while_not_stop] in H; rewrite Hstop in H; [discriminate|].
  fold (turn arrivals) in H.
  destruct (turn arrivals s) as [[] s1|w s1] eqn:Hturn; [|discriminate].
  destruct (turn_ends arrivals s s1 Hturn) as [Hs1 _].
  cbn [interrupted existsb]. fold (interrupted script).
  destruct (existsb is_interrupt arrivals); [reflexivity|].
  rewrite Hstop in Hs1. apply (IH s1 H Hs1).
Qed.

(** X9: [Run] comes back only through the stop flag and the master
    pointer: started with the flag clear, it returns only if an
    interrupt (or a call of [Stop]) arrived, before the loop or at some
    turn of it, and only if [this->master] is set; the flag is set when
    it returns. *)
Theorem Run_returns_only_when_stopped script s s' :
  stop s = false ->
  Run script s = Some (Ok tt s') ->
  interrupted script = true /\ stop s' = true /\ masterp s = true.
Proof.
  intros Hstop H. unfold Run in H. rewrite Hstop in H.
  destruct (Run_startup (hd [] script) s) as (s1 & H1 & _ & Hs1 & _ & _ & Hm1).
  rewrite H1 in H.
  destruct (while_not_stop (tl script) s1) as [[[] s2|w s2]|] eqn:Hloop;
    try discriminate.
  destruct (while_not_stop_trace (tl script) s1 s2 Hloop) as (Hs2 & _).
  pose proof (while_not_stop_master _ _ _ Hloop) as Hm2.
  destruct (Run_shutdown s2) as (s3 & _ & Hs3 & _ & H3). rewrite H3 in H.
  destruct (masterp s2) eqn:Hms; [|discriminate]. injection H as <-.
  split; [|split; [cbn [stop set_trace]; congruence|congruence]].
  rewrite (proj1 (script_split script)). rewrite Hstop in Hs1. cbn [orb] in Hs1.
  destruct (existsb is_interrupt (hd [] script)) eqn:E; [reflexivity|].
  cbn [orb]. apply (while_not_stop_needs_interrupt (tl script) s1 s2 Hloop Hs1).
Qed.

Lemma Run_returns_only_when_stopped_witness :
  interrupted [[Control new_world_request]; [Interrupt]] = true /\
  stop (final (match Run [[Control new_world_request]; [Interrupt]] running_server with
               | Some r => r
               | None => Ok tt running_server
               end)) = true /\
  masterp running_server = true.
Proof.
  apply (Run_returns_only_when_stopped
           [[Control new_world_request]; [Interrupt]] running_server);
    vm_compute; reflexivity.
Defined.

(** ** The two threads side by side, in general *)

(** X11: whatever the queue holds, a message the transport thread
    appends, under the lock, after the loop thread has passed the last
    element and before it clears the list, is dropped: the drain ends
    with the queue empty and the record and the worlds are those of the
    drain without that message. *)
Theorem message_between_end_and_clear_is_lost s s1 msg :
  for_each (controlMsgs s) s = Ok tt s1 ->
  exists c,
    run (repeat LoopThread (S (length (controlMsgs s))) ++
         [CallbackThread; CallbackThread; CallbackThread] ++ [LoopThread])
        (mkConfig s false (AtElement 0) (Entering msg)) = Some c /\
    loop c = Returned /\ callback c = Left /\ held c = false /\
    controlMsgs (server c) = [] /\
    trace (server c) = trace s1 /\ phys (server c) = phys s1.
Proof.
  intros Hrun. rewrite run_app.
  pose proof (loop_alone_iterates (controlMsgs s) [] s s1 false (Entering msg)
                eq_refl Hrun) as Hit.
  cbn [length] in Hit. rewrite Hit. rewrite run_app.
  rewrite callback_alone_is_OnControl.
  rewrite OnControl_run. cbn [final run step step_loop loop server held callback].
  unfold bind, touch. eexists. split; [reflexivity|]. repeat split.
Qed.

Lemma message_between_end_and_clear_is_lost_witness :
  exists c,
    run (repeat LoopThread
           (S (length (controlMsgs (enqueued [save_request "default" None]
                                      running_server)))) ++
         [CallbackThread; CallbackThread; CallbackThread] ++ [LoopThread])
        (mkConfig (enqueued [save_request "default" None] running_server)
                  false (AtElement 0) (Entering new_world_request)) = Some c /\
    loop c = Returned /\ callback c = Left /\ held c = false /\
    controlMsgs (server c) = [] /\
    trace (server c) =
      trace (final (for_each [save_request "default" None]
                      (enqueued [save_request "default" None] running_server))) /\
    phys (server c) =
      phys (final (for_each [save_request "default" None]
                     (enqueued [save_request "default" None] running_server))).
Proof.
  apply (message_between_end_and_clear_is_lost
           (enqueued [save_request "default" None] running_server)
           (final (for_each [save_request "default" None]
                     (enqueued [save_request "default" None] running_server)))
           new_world_request).
  reflexivity.
Defined.

(** ** The server object *)

Import Server.
Local Open Scope object_scope.

Lemma since_extends s s' calls :
  trace s' = trace s ++ calls -> since s s' = calls.
Proof.
  unfold since. intros ->. apply skipn_length_app.
Qed.

Lemma lift_done {A} (c : M A) x a s' calls :
  c (base x) = Ok a s' ->
  trace s' = trace (base x) ++ calls ->
  lift c x = Done a (mk s' (params x) (systemPluginsArgv x)
                       (journal x ++ map Core calls)).
Proof.
  intros Hrun Ht. unfold lift. rewrite Hrun, (since_extends _ _ _ Ht).
  reflexivity.
Qed.

Lemma lift_gzerr text x :
  lift (gzerr text) x
  = Done tt (mk (set_trace (trace (base x) ++ [GzErr text]) (base x))
               (params x) (systemPluginsArgv x)
               (journal x ++ [Core (GzErr text)])).
Proof.
  apply (lift_done (gzerr text) x tt _ [GzErr text]); reflexivity.
Qed.

(** *** Parameters *)

Lemma process_param_run `{Externals} iter x :
  exists x',
    ServerObject.process_param iter x = Done tt x' /\
    journal x' = journal x ++ entry_calls iter /\
    params x' = params x /\ master x' = master x /\
    systemPluginsArgv x' = systemPluginsArgv x /\
    stop (base x') = stop (base x) /\ phys (base x') = phys (base x) /\
    controlMsgs (base x') = controlMsgs (base x) /\
    disk (base x') = disk (base x).
Proof.
  unfold ServerObject.process_param, entry_calls, pause_calls.
  destruct (String.eqb_spec (fst iter) "pause") as [Hk|Hk].
  - rewrite Hk. unfold sbind.
    destruct (lexical_cast_bool (snd iter)) as [b|].
    + eexists. split; [reflexivity|]. repeat split.
    + destruct (String.eqb (to_lower (snd iter)) "true").
      * eexists. split; [reflexivity|]. repeat split.
      * destruct (String.eqb (to_lower (snd iter)) "false").
        -- eexists. split; [reflexivity|]. repeat split.
        -- rewrite lift_gzerr. eexists. split; [reflexivity|].
           cbn. rewrite <- app_assoc. repeat split.
  - destruct (String.eqb (fst iter) "log").
    + eexists. split; [reflexivity|]. repeat split.
    + eexists. split; [reflexivity|]. cbn. rewrite app_nil_r. repeat split.
Qed.

Lemma for_each_param_run `{Externals} l : forall x,
  exists x',
    ServerObject.for_each_param l x = Done tt x' /\
    journal x' = journal x ++ flat_map entry_calls l /\
    params x' = params x /\ master x' = master x /\
    systemPluginsArgv x' = systemPluginsArgv x /\
    stop (base x') = stop (base x) /\ phys (base x') = phys (base x) /\
    controlMsgs (base x') = controlMsgs (base x) /\
    disk (base x') = disk (base x).
Proof.
  induction l as [|iter l IH]; intros x.
  - exists x. cbn. rewrite app_nil_r. repeat split.
  - cbn [ServerObject.for_each_param flat_map]. unfold sbind.
    destruct (process_param_run iter x)
      as (x1 & H1 & Hj1 & Hp1 & Hm1 & Ha1 & Hs1 & Hw1 & Hq1 & Hd1).
    rewrite H1.
    destruct (IH x1) as (x' & H' & Hj & Hp & Hm & Ha & Hs & Hw & Hq & Hd).
    exists x'. split; [exact H'|].
    rewrite Hj, Hj1, app_assoc. repeat split; congruence.
Qed.

Lemma eqb_key (a b : string) : ParamsFacts.eqb a b = String.eqb b a.
Proof.
  unfold ParamsFacts.eqb.
  destruct (OrderedTypeEx.String_as_OT.eq_dec a b) as [e|n];
    destruct (String.eqb_spec b a) as [e'|n']; try reflexivity.
  - exfalso. apply n'. symmetry. exact e.
  - exfalso. apply n. symmetry. exact e'.
Qed.

Lemma log_before_pause : OrderedTypeEx.String_as_OT.lt "log" "pause".
Proof.
  apply OrderedTypeEx.String_as_OT.lts_head. cbn. lia.
Qed.

Lemma keys_above_pause `{Externals} (l : list (string * string)) :
  Forall (fun iter => OrderedTypeEx.String_as_OT.lt "pause" (fst iter)) l ->
  flat_map entry_calls l = [] /\
  SetoidList.findA (ParamsFacts.eqb "log") l = None /\
  SetoidList.findA (ParamsFacts.eqb "pause") l = None.
Proof.
  induction 1 as [|[k v] l Hk Hl IH]; [repeat split|].
  destruct IH as (IH1 & IH2 & IH3). cbn [fst] in Hk.
  assert (Hnp : k <> "pause").
  { intros ->. apply (OrderedTypeEx.String_as_OT.lt_not_eq Hk). reflexivity. }
  assert (Hnl : k <> "log").
  { intros ->.
    apply (OrderedTypeEx.String_as_OT.lt_not_eq
             (OrderedTypeEx.String_as_OT.lt_trans log_before_pause Hk)).
    reflexivity. }
  cbn [flat_map SetoidList.findA]. rewrite !eqb_key.
  unfold entry_calls at 1. cbn [fst snd].
  destruct (String.eqb_spec k "pause"); [contradiction|].
  destruct (String.eqb_spec k "log"); [contradiction|].
  repeat split; assumption.
Qed.

Lemma keys_above_log (l : list (string * string)) :
  Forall (fun iter => OrderedTypeEx.String_as_OT.lt "log" (fst iter)) l ->
  SetoidList.findA (ParamsFacts.eqb "log") l = None.
Proof.
  induction 1 as [|[k v] l Hk Hl IH]; [reflexivity|].
  cbn [SetoidList.findA fst] in *. rewrite eqb_key.
  destruct (String.eqb_spec k "log") as [e|_]; [|exact IH].
  exfalso. subst k. apply (OrderedTypeEx.String_as_OT.lt_not_eq Hk). reflexivity.
Qed.

Lemma sorted_tail_above (k : string) (v : string) l :
  Sorted.Sorted (@Params.lt_key string) ((k, v) :: l) ->
  Forall (fun iter => OrderedTypeEx.String_as_OT.lt k (fst iter)) l.
Proof.
  intros Hs.
  assert (Htrans : Relations_1.Transitive (@Params.lt_key string)).
  { intros a b c Hab Hbc. unfold Params.lt_key, Params.Raw.PX.ltk in *.
    eapply OrderedTypeEx.String_as_OT.lt_trans; eassumption. }
  pose proof (Sorted.Sorted_extends Htrans Hs) as Hall.
  eapply Forall_impl; [|exact Hall]. intros a Ha. exact Ha.
Qed.

Lemma sorted_entry_calls `{Externals} (l : list (string * string)) :
  Sorted.Sorted (@Params.lt_key string) l ->
  flat_map entry_calls l =
  match SetoidList.findA (ParamsFacts.eqb "log") l with
  | Some _ => [LoggerStart]
  | None => []
  end ++
  match SetoidList.findA (ParamsFacts.eqb "pause") l with
  | Some v => pause_calls v
  | None => []
  end.
Proof.
  induction l as [|[k v] l IH]; intros Hs; [reflexivity|].
  pose proof (sorted_tail_above k v l Hs) as Habove.
  inversion Hs as [|a b Hs' Hhd]; subst.
  specialize (IH Hs').
  cbn [flat_map SetoidList.findA]. rewrite !eqb_key.
  unfold entry_calls at 1. cbn [fst snd].
  destruct (String.eqb_spec k "pause") as [Hp|Hp].
  - subst k. destruct (keys_above_pause l Habove) as (H1 & H2 & H3).
    rewrite H1, H2. cbn [String.eqb Ascii.eqb Bool.eqb]. 
    rewrite app_nil_r. reflexivity.
  - destruct (String.eqb_spec k "log") as [Hl|Hl].
    + subst k. rewrite IH, (keys_above_log l Habove). reflexivity.
    + exact IH.
Qed.

(** X12: [ProcessParams] acts on two keys only, in the order of the
    keys and not of their insertion: if "log" is stored, whatever its
    value, the logger is started; then, if "pause" is stored, the worlds
    are paused or un-paused once, by its value; every other entry is
    passed over.  It changes neither the parameters nor the stop flag
    nor the worlds. *)
Theorem ProcessParams_acts_on_log_then_pause `{Externals} x :
  exists x',
    ServerObject.ProcessParams x = Done tt x' /\
    journal x' = journal x ++
      match Params.find "log" (params x) with
      | Some _ => [LoggerStart]
      | None => []
      end ++
      match Params.find "pause" (params x) with
      | Some v => pause_calls v
      | None => []
      end /\
    params x' = params x /\ master x' = master x /\
    stop (base x') = stop (base x) /\ phys (base x') = phys (base x).
Proof.
  unfold ServerObject.ProcessParams.
  destruct (for_each_param_run (Params.elements (params x)) x)
    as (x' & H' & Hj & Hp & Hm & _ & Hs & Hw & _).
  exists x'. split; [exact H'|].
  rewrite Hj, (sorted_entry_calls _ (Params.elements_3 (params x))).
  rewrite <- !ParamsFacts.elements_o. repeat split; assumption.
Qed.

(** X13: a value under "pause" that is neither read by
    [lexical_cast<bool>] nor, lower-cased, "true" or "false" is reported
    as invalid, and the worlds are un-paused all the same. *)
Theorem ProcessParams_invalid_pause `{Externals} x v :
  Params.find "pause" (params x) = Some v ->
  lexical_cast_bool v = None ->
  String.eqb (to_lower v) "true" = false ->
  String.eqb (to_lower v) "false" = false ->
  exists x' before,
    ServerObject.ProcessParams x = Done tt x' /\
    journal x' = journal x ++ before ++
                 [Core (GzErr ("Invalid param value[pause:" ++ v ++ "]" ++ endl));
                  PauseWorlds false] /\
    (before = [] \/ before = [LoggerStart]).
Proof.
  intros Hfind Hcast Ht Hf.
  unfold ServerObject.ProcessParams.
  destruct (for_each_param_run (Params.elements (params x)) x)
    as (x' & H' & Hj & _).
  exists x'.
  exists (match Params.find "log" (params x) with
          | Some _ => [LoggerStart]
          | None => []
          end).
  split; [exact H'|].
  rewrite Hj, (sorted_entry_calls _ (Params.elements_3 (params x))).
  rewrite <- !ParamsFacts.elements_o, Hfind.
  unfold pause_calls. rewrite Hcast, Ht, Hf.
  split; [reflexivity|].
  destruct (Params.find "log" (params x)); auto.
Qed.

Lemma ProcessParams_invalid_pause_witness :
  exists x' before,
    @ServerObject.ProcessParams example_externals
      (set_params (Params.add "pause" "Yes" (Params.add "log" "false"
                     (Params.empty string)))
         fresh_object) = Done tt x' /\
    journal x' =
      journal (set_params (Params.add "pause" "Yes" (Params.add "log" "false"
                             (Params.empty string)))
                 fresh_object)
      ++ before ++
      [Core (GzErr ("Invalid param value[pause:" ++ "Yes" ++ "]" ++ endl));
       PauseWorlds false] /\
    (before = [] \/ before = [LoggerStart]).
Proof.
  apply (@ProcessParams_invalid_pause example_externals
           (set_params (Params.add "pause" "Yes" (Params.add "log" "false"
                          (Params.empty string)))
              fresh_object) "Yes");
    reflexivity.
Defined.

Lemma findA_none_notin (k : string) (l : list (string * string)) (v0 : string) :
  ~ SetoidList.InA (@Params.eq_key string) (k, v0) l ->
  SetoidList.findA (ParamsFacts.eqb k) l = None.
Proof.
  induction l as [|[k1 v1] l IH]; intros Hnotin; [reflexivity|].
  cbn [SetoidList.findA]. rewrite eqb_key.
  destruct (String.eqb_spec k1 k) as [e|n].
  - exfalso. apply Hnotin. left. symmetry. exact e.
  - apply IH. intros Hin. apply Hnotin. right. exact Hin.
Qed.

Lemma fold_add_find (l : list (string * string)) : forall acc k,
  SetoidList.NoDupA (@Params.eq_key string) l ->
  Params.find k (fold_left (fun acc iter => Params.add (fst iter) (snd iter) acc)
                           l acc)
  = match SetoidList.findA (ParamsFacts.eqb k) l with
    | Some v => Some v
    | None => Params.find k acc
    end.
Proof.
  induction l as [|[k0 v0] l IH]; intros acc k Hnd; [reflexivity|].
  inversion Hnd as [|a b Hnotin Hnd']; subst.
  cbn [fold_left fst snd SetoidList.findA]. rewrite (IH _ _ Hnd'), eqb_key.
  destruct (String.eqb_spec k0 k) as [e|n].
  - subst k0. rewrite (findA_none_notin k l v0 Hnotin).
    apply ParamsFacts.add_eq_o. reflexivity.
  - destruct (SetoidList.findA (ParamsFacts.eqb k) l); [reflexivity|].
    apply ParamsFacts.add_neq_o. exact n.
Qed.

(** X14: [SetParams] overrides key by key: afterwards a key carries the
    value given for it if one was given, else the value it had; nothing
    is called and nothing else changes. *)
Theorem SetParams_overrides _params x k :
  exists x',
    ServerObject.SetParams _params x = Done tt x' /\
    Params.find k (params x') =
      match Params.find k _params with
      | Some v => Some v
      | None => Params.find k (params x)
      end /\
    journal x' = journal x /\ base x' = base x /\ master x' = master x.
Proof.
  eexists. split; [reflexivity|]. cbn [params set_params journal base master].
  split; [|repeat split].
  rewrite fold_add_find by apply Params.elements_3w.
  rewrite <- ParamsFacts.elements_o. reflexivity.
Qed.

(** *** Shutting down *)

Lemma Stop_run x :
  ServerObject.Stop x
  = Done tt (mk (set_stop true (base x)) (params x)
               (systemPluginsArgv x) (journal x)).
Proof.
  unfold ServerObject.Stop.
  rewrite (lift_done Stop x tt (set_stop true (base x)) []).
  - cbn [map]. rewrite app_nil_r. reflexivity.
  - reflexivity.
  - cbn [trace set_stop]. rewrite app_nil_r. reflexivity.
Qed.

Lemma Fini_run x :
  ServerObject.Fini x
  = Done tt (mk (set_masterp false (set_stop true (base x))) (params x)
               (systemPluginsArgv x)
               (journal x ++ [GazeboFini; PhysicsFini; SensorsFini]
                ++ (if master x then [MasterFini] else []))).
Proof.
  unfold ServerObject.Fini. unfold sbind at 1. rewrite Stop_run.
  unfold sbind, call, modify, sret, master, set_master, set_base.
  cbn [base params systemPluginsArgv journal set_journal masterp set_stop].
  destruct (masterp (base x));
    cbn [base params systemPluginsArgv journal set_journal];
    rewrite <- !app_assoc; reflexivity.
Qed.

(** X15: [Fini] sets the stop flag, finalises the plugin subsystem, the
    physics and the sensors in that order, finalises the master only if
    there is one, and forgets it; so a second [Fini] finalises the three
    subsystems again but not the master, and [Run] called after [Fini]
    returns at once. *)
Theorem Fini_releases_master_once x :
  exists x' x'',
    ServerObject.Fini x = Done tt x' /\
    journal x' = journal x ++ [GazeboFini; PhysicsFini; SensorsFini]
                 ++ (if master x then [MasterFini] else []) /\
    master x' = false /\ stop (base x') = true /\
    ServerObject.Fini x' = Done tt x'' /\
    journal x'' = journal x' ++ [GazeboFini; PhysicsFini; SensorsFini] /\
    forall script, Run script (base x') = Some (Ok tt (base x')).
Proof.
  eexists. eexists. split; [apply Fini_run|].
  split; [reflexivity|]. split; [reflexivity|]. split; [reflexivity|].
  split; [apply Fini_run|].
  split; [cbn [journal master app]; reflexivity|].
  intros script. unfold Run. cbn [base stop set_stop]. reflexivity.
Qed.

(** *** Loading through the object *)

Lemma LoadFile_outcomes filename s :
  (load_fails filename s = true /\
   exists calls text,
     LoadFile filename s
     = Ok false (set_trace (trace s ++ calls ++ [GzErr text]) s) /\
     existsb starts_something calls = false) \/
  (load_fails filename s = false /\
   exists d,
     sdf.parse filename (disk s) = Some d /\
     LoadFile filename s
     = LoadImpl d (set_trace (trace s ++ [SdfInit; SdfReadFile filename]) s)).
Proof.
  destruct s as [st q ql p sch dk tr ms lb].
  unfold load_fails, LoadFile. cbn [disk sdf_schema phys trace stop].
  destruct (find_file filename dk) as [c|] eqn:Hfind.
  - unfold sdf.init, sdf.readFile. exec_server.
    destruct sch; cbn [negb orb].
    + destruct (sdf.parse filename dk) as [d|] eqn:Hparse; cbn [is_set negb].
      * right. split; [reflexivity|]. exists d. split; [reflexivity|].
        rewrite <- app_assoc. reflexivity.
      * left. split; [reflexivity|].
        exists [SdfInit; SdfReadFile filename]. eexists.
        split; [|reflexivity]. rewrite <- !app_assoc. reflexivity.
    + left. split; [reflexivity|]. exists [SdfInit]. eexists.
      split; [|reflexivity]. rewrite <- !app_assoc. reflexivity.
  - left. split; [reflexivity|]. exists []. eexists.
    split; [|reflexivity]. unfold bind, gzerr, emit, ret. reflexivity.
Qed.

Lemma since_self s : since s s = [].
Proof. apply since_extends. rewrite app_nil_r. reflexivity. Qed.

(** A computation of the base, run on the object, whatever its end. *)
Lemma lift_any {A} (c : M A) x calls :
  trace (final (c (base x))) = trace (base x) ++ calls ->
  lift c x =
  match c (base x) with
  | Ok a s' =>
      Done a (mk s' (params x) (systemPluginsArgv x) (journal x ++ map Core calls))
  | Fault w s' =>
      Faulted w (mk s' (params x) (systemPluginsArgv x) (journal x ++ map Core calls))
  end.
Proof.
  intros Ht. unfold lift.
  destruct (c (base x)) as [a s'|w s']; cbn [final] in Ht;
    rewrite (since_extends _ _ _ Ht); reflexivity.
Qed.

Lemma LoadImpl_trace d s :
  trace (final (LoadImpl d s)) = trace s ++ LoadImpl_calls d (g_next (phys s)) /\
  stop (final (LoadImpl d s)) = stop s /\
  masterp (final (LoadImpl d s)) = true /\
  (loadable d = true -> exists s', LoadImpl d s = Ok true s') /\
  (loadable d = false -> exists what s', LoadImpl d s = Fault (Exception what) s').
Proof.
  unfold LoadImpl_calls. destruct (loadable d) eqn:Hload.
  - destruct (LoadImpl_run d s Hload) as (s' & H & Ht & Hs & Hm).
    rewrite H. cbn [final]. repeat split; try assumption.
    + intros _. exists s'. reflexivity.
    + discriminate.
  - unfold loadable in Hload. destruct (root_world d) as [e|] eqn:Hroot;
      [|discriminate].
    destruct (elem_error e) as [what|] eqn:Herr; [|discriminate].
    destruct (LoadImpl_rejected d s e what Hroot Herr) as (s' & H & Ht & Hs & Hm & _).
    rewrite H. cbn [final]. repeat split; try assumption.
    + discriminate.
    + intros _. eexists. exists s'. reflexivity.
Qed.

(** The object-level [LoadFile] is the base's. *)
Lemma object_LoadFile filename x :
  exists calls,
    trace (final (LoadFile filename (base x))) = trace (base x) ++ calls /\
    ServerObject.LoadFile filename x =
    match LoadFile filename (base x) with
    | Ok b s' =>
        Done b (mk s' (params x) (systemPluginsArgv x) (journal x ++ map Core calls))
    | Fault w s' =>
        Faulted w (mk s' (params x) (systemPluginsArgv x)
                     (journal x ++ map Core calls))
    end.
Proof.
  destruct x as [s p a j]. destruct s as [st q ql ph sch dk tr ms lb].
  unfold ServerObject.LoadFile, LoadFile. cbn [base disk].
  destruct (find_file filename dk) as [c|] eqn:Hfind.
  - destruct sch.
    + destruct (sdf.parse filename dk) as [d|] eqn:Hparse.
      * exec_object; rewrite ?skipn_length_app; cbn [map]. rewrite Hparse.
        unfold ServerObject.LoadImpl.
        match goal with |- context [lift (LoadImpl d) ?x1] =>
          destruct (LoadImpl_trace d (base x1)) as (Ht & _);
          rewrite (lift_any (LoadImpl d) x1 _ Ht) end.
        cbn [base trace phys params systemPluginsArgv journal] in Ht |- *.
        exists ([SdfInit; SdfReadFile filename] ++ LoadImpl_calls d (g_next ph)).
        split.
        -- match goal with |- context [LoadImpl d ?s1] =>
             change (trace (final (LoadImpl d s1))
                     = tr ++ [SdfInit; SdfReadFile filename]
                          ++ LoadImpl_calls d (g_next ph)) end.
           rewrite Ht, <- !app_assoc. reflexivity.
        -- match goal with |- context [LoadImpl d ?s1] =>
             destruct (LoadImpl d s1) as [b s'|w s'] end;
             rewrite !map_app, <- !app_assoc; reflexivity.
      * exec_object; rewrite ?skipn_length_app; cbn [map]. rewrite Hparse.
        exec_object; rewrite ?skipn_length_app; cbn [map].
        exists [SdfInit; SdfReadFile filename;
                GzErr ("Unable to read sdf file[" ++ filename ++ "]" ++ endl)].
        split.
        -- cbn [final trace]. rewrite <- !app_assoc. reflexivity.
        -- cbn [map]. rewrite <- !app_assoc. reflexivity.
    + exec_object; rewrite ?skipn_length_app; cbn [map].
      exists [SdfInit; GzErr ("Unable to initialize sdf" ++ endl)].
      split.
      * cbn [final trace]. rewrite <- !app_assoc. reflexivity.
      * cbn [map]. rewrite <- !app_assoc. reflexivity.
  - exec_object; rewrite ?skipn_length_app; cbn [map].
    exists [GzErr ("Could not open file[" ++ filename ++ "]" ++ endl)].
    split; reflexivity.
Qed.

Lemma LoadString_outcomes `{Externals} text x :
  (string_fails text (base x) = true /\
   exists calls s',
     ServerObject.LoadString text x
     = Done false (mk s' (params x) (systemPluginsArgv x) (journal x ++ calls)) /\
     pauses calls = [] /\ stop s' = stop (base x) /\ phys s' = phys (base x) /\
     masterp s' = masterp (base x)) \/
  (string_fails text (base x) = false /\
   exists d,
     sdf_readString text = Some d /\
     ServerObject.LoadString text x =
     match LoadImpl d (set_trace (trace (base x) ++ [SdfInit]) (base x)) with
     | Ok b s' =>
         Done b (mk s' (params x) (systemPluginsArgv x)
                   (journal x ++ [Core SdfInit; SdfReadString text]
                    ++ map Core (LoadImpl_calls d (g_next (phys (base x))))))
     | Fault w s' =>
         Faulted w (mk s' (params x) (systemPluginsArgv x)
                      (journal x ++ [Core SdfInit; SdfReadString text]
                       ++ map Core (LoadImpl_calls d (g_next (phys (base x))))))
     end).
Proof.
  destruct x as [s p a j]. destruct s as [st q ql ph sch dk tr ms lb].
  unfold string_fails, ServerObject.LoadString. cbn [base sdf_schema].
  destruct sch; cbn [negb orb].
  - destruct (sdf_readString text) as [d|] eqn:Hread; cbn [is_set negb].
    + right. split; [reflexivity|]. exists d. split; [reflexivity|].
      exec_object; rewrite ?skipn_length_app; cbn [map].
      unfold ServerObject.LoadImpl.
      match goal with |- context [lift (LoadImpl d) ?x1] =>
        destruct (LoadImpl_trace d (base x1)) as (Ht & _);
        rewrite (lift_any (LoadImpl d) x1 _ Ht) end.
      cbn [base trace phys params systemPluginsArgv journal].
      match goal with |- context [LoadImpl d ?s1] =>
        destruct (LoadImpl d s1) as [b s'|w s'] end;
        rewrite <- !app_assoc; reflexivity.
    + left. split; [reflexivity|].
      exec_object; rewrite ?skipn_length_app; cbn [map].
      eexists. eexists. split.
      * rewrite <- !app_assoc. reflexivity.
      * repeat split.
  - left. split; [reflexivity|].
    exec_object; rewrite ?skipn_length_app; cbn [map].
    eexists. eexists. split.
    + rewrite <- !app_assoc. reflexivity.
    + repeat split.
Qed.

Lemma Init_run s :
  exists s',
    Init s = Ok tt s' /\ trace s' = trace s ++ init_calls /\
    stop s' = false /\ phys s' = phys s /\ disk s' = disk s /\
    controlMsgs s' = controlMsgs s /\ masterp s' = masterp s.
Proof.
  destruct s as [st q ql ph sch dk tr ms lb].
  unfold Init, gazebo.init, sensors.init, physics.init_worlds. exec_server.
  eexists. split; [reflexivity|]. cbn [trace stop phys disk controlMsgs masterp].
  rewrite <- !app_assoc. repeat split.
Qed.

Lemma ProcessParams_run `{Externals} x :
  exists x',
    ServerObject.ProcessParams x = Done tt x' /\
    journal x' = journal x ++ params_calls (params x) /\
    params x' = params x /\ master x' = master x /\
    systemPluginsArgv x' = systemPluginsArgv x /\
    stop (base x') = stop (base x) /\ phys (base x') = phys (base x).
Proof.
  unfold ServerObject.ProcessParams.
  destruct (for_each_param_run (Params.elements (params x)) x)
    as (x' & H' & Hj & Hp & Hm & Ha & Hs & Hw & _).
  exists x'. split; [exact H'|].
  rewrite Hj, (sorted_entry_calls _ (Params.elements_3 (params x))).
  unfold params_calls. rewrite <- !ParamsFacts.elements_o.
  repeat split; assumption.
Qed.

(** What follows a load that went through. *)
Lemma after_load `{Externals} x :
  exists x',
    (ServerObject.ProcessParams ;; ServerObject.Init ;; sret true) x = Done true x' /\
    journal x' = journal x ++ params_calls (params x) ++ map Core init_calls /\
    params x' = params x /\ master x' = master x /\
    systemPluginsArgv x' = systemPluginsArgv x /\
    stop (base x') = false /\ phys (base x') = phys (base x).
Proof.
  unfold sbind at 1.
  destruct (ProcessParams_run x) as (x1 & H1 & Hj1 & Hp1 & Hm1 & Ha1 & _ & Hw1).
  rewrite H1. unfold sbind, sret, ServerObject.Init.
  destruct (Init_run (base x1)) as (s' & Hi & Ht & Hs & Hw & _ & _ & Hm).
  rewrite (lift_done Init x1 tt s' _ Hi Ht).
  eexists. split; [reflexivity|]. unfold master in *.
  cbn [journal params systemPluginsArgv base].
  rewrite Hj1, <- app_assoc. repeat split; congruence.
Qed.

Lemma add_plugins_run pp x :
  ServerObject.add_plugins pp x
  = Done tt (set_journal (journal x ++ map AddPlugin pp) x).
Proof.
  revert x. induction pp as [|iter pp IH]; intros x.
  - cbn. rewrite app_nil_r. destruct x; reflexivity.
  - cbn [ServerObject.add_plugins map]. unfold sbind, call. rewrite IH.
    cbn [journal set_journal]. rewrite <- app_assoc. destruct x; reflexivity.
Qed.

(** [ParseArgs] up to the load. *)
Lemma ParseArgs_prepares `{Externals} argv vm x :
  command_line_parser argv = Some vm ->
  opt_help vm = false ->
  ServerObject.ParseArgs argv x =
  (loaded <- match opt_play vm with
             | Some path =>
                 call (LogPlayOpen path) ;; call LogPlayStep ;;
                 ServerObject.LoadString (LogPlay_Step path)
             | None => ServerObject.LoadFile (world_source vm)
             end ;;
   if negb loaded then sret false
   else ServerObject.ProcessParams ;; ServerObject.Init ;; sret true)
    (mk (base x) (stored_params vm (params x)) argv
        (journal x ++ map AddPlugin (opt_server_plugin vm))).
Proof.
  intros Hparse Hhelp. unfold ServerObject.ParseArgs.
  unfold sbind at 1. unfold modify at 1. rewrite Hparse, Hhelp.
  unfold sbind at 1. rewrite add_plugins_run.
  unfold stored_params, world_source.
  destruct x as [s p a j].
  cbn [journal set_journal set_systemPluginsArgv base master params
       systemPluginsArgv].
  destruct (opt_log vm), (opt_pause vm); reflexivity.
Qed.

Lemma pauses_app j1 j2 : pauses (j1 ++ j2) = pauses j1 ++ pauses j2.
Proof. unfold pauses. apply flat_map_app. Qed.

Lemma pauses_Core l : pauses (map Core l) = [].
Proof. induction l; [reflexivity|exact IHl]. Qed.

Lemma pauses_AddPlugin l : pauses (map AddPlugin l) = [].
Proof. induction l; [reflexivity|exact IHl]. Qed.

Lemma load_frame_file filename x0 :
  exists loading, load_frame x0 (ServerObject.LoadFile filename x0) loading.
Proof.
  destruct (object_LoadFile filename x0) as (calls & Ht & Hl).
  pose proof (LoadFile_stop filename (base x0)) as Hs.
  exists (map Core calls). unfold load_frame. rewrite Hl.
  destruct (LoadFile filename (base x0)) as [b s'|w s'];
    cbn [outcome journal params systemPluginsArgv base final] in *;
    repeat split; try assumption; apply pauses_Core.
Qed.

Lemma load_frame_string `{Externals} text x0 before :
  pauses before = [] ->
  exists loading,
    load_frame x0
      (ServerObject.LoadString text (set_journal (journal x0 ++ before) x0))
      loading.
Proof.
  intros Hb.
  destruct (LoadString_outcomes text (set_journal (journal x0 ++ before) x0))
    as [(_ & calls & s' & Hl & Hpz & Hs & _)|(_ & d & _ & Hl)]; rewrite Hl.
  - exists (before ++ calls). unfold load_frame.
    cbn [outcome journal params systemPluginsArgv base set_journal] in *.
    rewrite <- app_assoc, pauses_app, Hb, Hpz. repeat split. exact Hs.
  - cbn [base set_journal journal params systemPluginsArgv].
    match goal with |- context [LoadImpl d ?s1] =>
      destruct (LoadImpl_trace d s1) as (_ & Hs & _);
      destruct (LoadImpl d s1) as [b s'|w s'] end;
      cbn [final stop set_trace] in Hs;
      (eexists; unfold load_frame;
       cbn [outcome journal params systemPluginsArgv base];
       rewrite <- app_assoc;
       split; [reflexivity|];
       split; [rewrite !pauses_app, Hb, pauses_Core; reflexivity|];
       repeat split; exact Hs).
Qed.

(** What follows the load in [ParseArgs]. *)
Lemma ParseArgs_finish `{Externals} argv vm x r loading :
  load_frame (mk (base x) (stored_params vm (params x)) argv
                (journal x ++ map AddPlugin (opt_server_plugin vm))) r loading ->
  pauses loading = [] /\
  params (outcome
            match r with
            | Done a x' =>
                (if negb a then sret false
                 else ServerObject.ProcessParams ;; ServerObject.Init ;; sret true) x'
            | Faulted w x' => Faulted w x'
            end) = stored_params vm (params x) /\
  systemPluginsArgv
    (outcome
       match r with
       | Done a x' =>
           (if negb a then sret false
            else ServerObject.ProcessParams ;; ServerObject.Init ;; sret true) x'
       | Faulted w x' => Faulted w x'
       end) = argv /\
  match
    match r with
    | Done a x' =>
        (if negb a then sret false
         else ServerObject.ProcessParams ;; ServerObject.Init ;; sret true) x'
    | Faulted w x' => Faulted w x'
    end
  with
  | Done true x' =>
      journal x' = journal x ++ map AddPlugin (opt_server_plugin vm) ++ loading
                   ++ params_calls (stored_params vm (params x))
                   ++ map Core init_calls /\
      stop (base x') = false
  | Done false x' | Faulted _ x' =>
      journal x' = journal x ++ map AddPlugin (opt_server_plugin vm) ++ loading /\
      stop (base x') = stop (base x)
  end.
Proof.
  intros (Hj & Hl & Hp & Ha & Hs). split; [exact Hl|].
  cbn [journal params systemPluginsArgv base] in Hj, Hp, Ha, Hs.
  destruct r as [[|] x1|w x1]; cbn [outcome negb] in *.
  - destruct (after_load x1) as (x' & H' & Hj' & Hp' & _ & Ha' & Hs' & _).
    rewrite H'. cbn [outcome]. rewrite Hj', Hp', Ha', Hj, Hp, Ha.
    rewrite <- !app_assoc. repeat split. exact Hs'.
  - unfold sret. cbn [outcome]. rewrite Hj, <- !app_assoc. repeat split; assumption.
  - rewrite Hj, <- !app_assoc. repeat split; assumption.
Qed.

(** The ways [ParseArgs] ends once the options are read and no help is
    asked for. *)
Lemma ParseArgs_cases `{Externals} argv vm x :
  command_line_parser argv = Some vm ->
  opt_help vm = false ->
  exists loading,
    pauses loading = [] /\
    params (outcome (ServerObject.ParseArgs argv x)) = stored_params vm (params x) /\
    systemPluginsArgv (outcome (ServerObject.ParseArgs argv x)) = argv /\
    match ServerObject.ParseArgs argv x with
    | Done true x' =>
        journal x' = journal x ++ map AddPlugin (opt_server_plugin vm) ++ loading
                     ++ params_calls (stored_params vm (params x))
                     ++ map Core init_calls /\
        stop (base x') = false
    | Done false x' | Faulted _ x' =>
        journal x' = journal x ++ map AddPlugin (opt_server_plugin vm) ++ loading /\
        stop (base x') = stop (base x)
    end.
Proof.
  intros Hparse Hhelp.
  remember (ServerObject.ParseArgs argv x) as R eqn:HR.
  rewrite (ParseArgs_prepares argv vm x Hparse Hhelp) in HR.
  unfold sbind at 1 in HR.
  destruct (opt_play vm) as [path|].
  - unfold sbind at 1 2 in HR. unfold call in HR.
    unfold set_journal in HR. cbn [journal base params systemPluginsArgv] in HR.
    rewrite <- (app_assoc (journal x ++ map AddPlugin (opt_server_plugin vm))
                  [LogPlayOpen path] [LogPlayStep]) in HR.
    cbn [app] in HR.
    destruct (load_frame_string (LogPlay_Step path)
                (mk (base x) (stored_params vm (params x)) argv
                    (journal x ++ map AddPlugin (opt_server_plugin vm)))
                [LogPlayOpen path; LogPlayStep] eq_refl) as (loading & Hf).
    unfold set_journal in Hf. cbn [journal base params systemPluginsArgv] in Hf.
    exists loading. subst R. exact (ParseArgs_finish argv vm x _ loading Hf).
  - match type of HR with context [ServerObject.LoadFile ?f ?x0] =>
      destruct (load_frame_file f x0) as (loading & Hf) end.
    exists loading. subst R. exact (ParseArgs_finish argv vm x _ loading Hf).
Qed.

(** X16: when the command line does not parse, or asks for help,
    [ParseArgs] answers [false] after writing to the error stream only:
    nothing is loaded, no plugin is added, no parameter is stored and
    the stop flag is not touched; the copy of the arguments for the
    plugins has been taken all the same. *)
Theorem ParseArgs_refuses `{Externals} argv x :
  match command_line_parser argv with
  | Some vm => opt_help vm
  | None => true
  end = true ->
  exists lines,
    ServerObject.ParseArgs argv x
    = Done false (mk (base x) (params x) argv (journal x ++ lines)) /\
    forallb is_cerr lines = true /\ lines <> [].
Proof.
  unfold ServerObject.ParseArgs, sbind, modify, ServerObject.PrintUsage, call, sret.
  destruct x as [s p a j].
  cbn [set_systemPluginsArgv base master params journal set_journal].
  destruct (command_line_parser argv) as [vm|].
  - intros Hhelp. rewrite Hhelp. eexists. split.
    + rewrite <- !app_assoc. reflexivity.
    + split; [reflexivity|discriminate].
  - intros _. eexists. split; [reflexivity|]. split; [reflexivity|discriminate].
Qed.

Lemma ParseArgs_refuses_witness :
  exists lines,
    @ServerObject.ParseArgs example_externals ["gzserver"; "--help"; "a.world"]
      fresh_object
    = Done false (mk (base fresh_object)
                     (params fresh_object)
                     ["gzserver"; "--help"; "a.world"]
                     (journal fresh_object ++ lines)) /\
    forallb is_cerr lines = true /\ lines <> [].
Proof.
  apply (@ParseArgs_refuses example_externals ["gzserver"; "--help"; "a.world"]
           fresh_object).
  reflexivity.
Defined.

(** X17: once the options are read and no help is asked for,
    [ParseArgs] always stores "pause", as "true" or "false" by the
    option, over whatever was stored; it stores "log" only when the
    option is given and otherwise leaves an earlier "log" in place; no
    other key changes.  This holds whether or not the load then goes
    through. *)
Theorem ParseArgs_stores_params `{Externals} argv vm x k :
  command_line_parser argv = Some vm ->
  opt_help vm = false ->
  Params.find k (params (outcome (ServerObject.ParseArgs argv x))) =
    if String.eqb k "pause" then
      Some (if opt_pause vm then "true" else "false")
    else if String.eqb k "log" then
      (if opt_log vm then Some "true" else Params.find "log" (params x))
    else Params.find k (params x).
Proof.
  intros Hparse Hhelp.
  destruct (ParseArgs_cases argv vm x Hparse Hhelp) as (loading & _ & Hp & _).
  rewrite Hp. unfold stored_params.
  destruct (String.eqb_spec k "pause") as [->|Hk].
  - apply ParamsFacts.add_eq_o. reflexivity.
  - rewrite ParamsFacts.add_neq_o by (intros e; apply Hk; symmetry; exact e).
    destruct (String.eqb_spec k "log") as [->|Hl].
    + destruct (opt_log vm); [|reflexivity].
      apply ParamsFacts.add_eq_o. reflexivity.
    + destruct (opt_log vm); [|reflexivity].
      apply ParamsFacts.add_neq_o. intros e. apply Hl. symmetry. exact e.
Qed.

Lemma ParseArgs_stores_params_witness :
  Params.find "pause"
    (params (outcome (@ServerObject.ParseArgs example_externals
                        ["gzserver"; "missing.world"]
                        (set_params (Params.add "pause" "true"
                                       (Params.add "log" "true" (Params.empty string)))
                           fresh_object)))) =
  if String.eqb "pause" "pause" then
    Some (if opt_pause (mkOptions false false None false [] (Some "missing.world"))
          then "true" else "false")
  else if String.eqb "pause" "log" then
    (if opt_log (mkOptions false false None false [] (Some "missing.world"))
     then Some "true"
     else Params.find "log"
            (params (set_params (Params.add "pause" "true"
                                   (Params.add "log" "true" (Params.empty string)))
                       fresh_object)))
  else Params.find "pause"
         (params (set_params (Params.add "pause" "true"
                                (Params.add "log" "true" (Params.empty string)))
                    fresh_object)).
Proof.
  apply (@ParseArgs_stores_params example_externals
           ["gzserver"; "missing.world"]
           (mkOptions false false None false [] (Some "missing.world"))
           (set_params (Params.add "pause" "true"
                          (Params.add "log" "true" (Params.empty string)))
              fresh_object) "pause");
    reflexivity.
Defined.

(** [ParseArgs] when no recording is played back: what the load of the
    world file decides. *)
Lemma ParseArgs_from_file `{Externals} argv vm x :
  command_line_parser argv = Some vm ->
  opt_help vm = false ->
  opt_play vm = None ->
  exists calls,
    trace (final (LoadFile (world_source vm) (base x))) = trace (base x) ++ calls /\
    ServerObject.ParseArgs argv x =
    match LoadFile (world_source vm) (base x) with
    | Ok b s' =>
        (if negb b then sret false
         else ServerObject.ProcessParams ;; ServerObject.Init ;; sret true)
          (mk s' (stored_params vm (params x)) argv
             ((journal x ++ map AddPlugin (opt_server_plugin vm)) ++ map Core calls))
    | Fault w s' =>
        Faulted w
          (mk s' (stored_params vm (params x)) argv
             ((journal x ++ map AddPlugin (opt_server_plugin vm)) ++ map Core calls))
    end.
Proof.
  intros Hparse Hhelp Hplay.
  rewrite (ParseArgs_prepares argv vm x Hparse Hhelp), Hplay.
  unfold sbind at 1.
  match goal with |- context [ServerObject.LoadFile ?f ?x0] =>
    destruct (object_LoadFile f x0) as (calls & Ht & Hl) end.
  rewrite Hl. cbn [base params systemPluginsArgv journal] in Ht |- *.
  exists calls. split; [exact Ht|].
  destruct (LoadFile (world_source vm) (base x)); reflexivity.
Qed.

(** X18: the order of a start-up from a world file.  When the file
    named on the command line, or "worlds/empty.world" when none is
    named, opens and parses to a description the physics subsystem
    accepts, [ParseArgs] answers [true] and has, in this order: added
    the plugins in the order of the command line, read the file and
    brought the subsystems up, acted on the parameters (logger, then
    pause), and called [Init]; the stop flag is then clear and the
    master is set. *)
Theorem ParseArgs_starts_from_file `{Externals} argv vm x :
  command_line_parser argv = Some vm ->
  opt_help vm = false ->
  opt_play vm = None ->
  load_fails (world_source vm) (base x) = false ->
  accepted (world_source vm) (base x) = true ->
  exists d x',
    sdf.parse (world_source vm) (disk (base x)) = Some d /\
    ServerObject.ParseArgs argv x = Done true x' /\
    journal x' =
      journal x ++ map AddPlugin (opt_server_plugin vm)
      ++ map Core ([SdfInit; SdfReadFile (world_source vm)]
                   ++ load_calls d (g_next (phys (base x))))
      ++ params_calls (stored_params vm (params x))
      ++ map Core [GazeboInit; SensorsInit; PhysicsInitWorlds] /\
    stop (base x') = false /\ master x' = true /\
    systemPluginsArgv x' = argv.
Proof.
  intros Hparse Hhelp Hplay Hload Hacc.
  destruct (ParseArgs_from_file argv vm x Hparse Hhelp Hplay) as (calls & Ht & Hrun).
  destruct (LoadFile_outcomes (world_source vm) (base x))
    as [(Hf & _)|(_ & d & Hd & Hl)]; [congruence|].
  unfold accepted in Hacc. rewrite Hd in Hacc.
  destruct (LoadImpl_run d (set_trace (trace (base x)
                                       ++ [SdfInit; SdfReadFile (world_source vm)])
                              (base x)) Hacc) as (s' & H' & Ht' & _ & Hm').
  rewrite Hl, H' in Ht, Hrun. cbn [final negb] in Ht, Hrun.
  rewrite Ht' in Ht. cbn [trace set_trace phys] in Ht.
  rewrite <- app_assoc in Ht. apply app_inv_head in Ht. subst calls.
  match type of Hrun with _ = _ ?x1 =>
    destruct (after_load x1) as (x' & H'' & Hj & _ & Hm & Ha & Hs & _) end.
  exists d, x'. split; [exact Hd|]. split; [rewrite Hrun; exact H''|].
  rewrite Hj, Hm, Ha. unfold master.
  cbn [journal params systemPluginsArgv base].
  rewrite <- !app_assoc. repeat split; assumption.
Qed.

Lemma ParseArgs_starts_from_file_witness :
  exists d x',
    sdf.parse (world_source (mkOptions false false None true
                               ["libA.so"; "libB.so"] None))
      (disk (base fresh_object)) = Some d /\
    @ServerObject.ParseArgs example_externals ["gzserver"; "--pause"; "-s"]
      fresh_object = Done true x' /\
    journal x' =
      journal fresh_object
      ++ map AddPlugin (opt_server_plugin
                          (mkOptions false false None true
                             ["libA.so"; "libB.so"] None))
      ++ map Core ([SdfInit;
                    SdfReadFile (world_source
                                   (mkOptions false false None true
                                      ["libA.so"; "libB.so"] None))]
                   ++ load_calls d (g_next (phys (base fresh_object))))
      ++ @params_calls example_externals
           (stored_params (mkOptions false false None true
                             ["libA.so"; "libB.so"] None)
              (params fresh_object))
      ++ map Core [GazeboInit; SensorsInit; PhysicsInitWorlds] /\
    stop (base x') = false /\ master x' = true /\
    systemPluginsArgv x' = ["gzserver"; "--pause"; "-s"].
Proof.
  apply (@ParseArgs_starts_from_file example_externals
           ["gzserver"; "--pause"; "-s"]
           (mkOptions false false None true ["libA.so"; "libB.so"] None)
           fresh_object); reflexivity.
Defined.

(** X19: when that file does not load, [ParseArgs] answers [false]:
    after the plugins only parser calls and one logged error are made,
    no subsystem is brought up, neither the parameters are acted on nor
    [Init] is called, and the stop flag is as it was, so that [Run]
    still returns at once; the parameters of the command line have been
    stored all the same. *)
Theorem ParseArgs_file_does_not_load `{Externals} argv vm x :
  command_line_parser argv = Some vm ->
  opt_help vm = false ->
  opt_play vm = None ->
  load_fails (world_source vm) (base x) = true ->
  exists calls text x',
    ServerObject.ParseArgs argv x = Done false x' /\
    journal x' = journal x ++ map AddPlugin (opt_server_plugin vm)
                 ++ map Core (calls ++ [GzErr text]) /\
    existsb starts_something calls = false /\
    base x' = set_trace (trace (base x) ++ calls ++ [GzErr text]) (base x) /\
    master x' = master x /\
    params x' = stored_params vm (params x).
Proof.
  intros Hparse Hhelp Hplay Hload.
  destruct (ParseArgs_from_file argv vm x Hparse Hhelp Hplay) as (calls & Ht & Hrun).
  destruct (LoadFile_outcomes (world_source vm) (base x))
    as [(_ & c & text & Hl & Hc)|(Hf & _)]; [|congruence].
  rewrite Hl in Ht, Hrun. cbn [final negb trace set_trace] in Ht, Hrun.
  apply app_inv_head in Ht. subst calls.
  exists c, text. eexists. split; [exact Hrun|].
  unfold master. cbn [journal base params masterp set_trace].
  rewrite <- !app_assoc. repeat split. exact Hc.
Qed.

Lemma ParseArgs_file_does_not_load_witness :
  exists calls text x',
    @ServerObject.ParseArgs example_externals ["gzserver"; "broken.world"]
      fresh_object = Done false x' /\
    journal x' =
      journal fresh_object
      ++ map AddPlugin (opt_server_plugin
                          (mkOptions false false None false [] (Some "broken.world")))
      ++ map Core (calls ++ [GzErr text]) /\
    existsb starts_something calls = false /\
    base x' = set_trace (trace (base fresh_object) ++ calls ++ [GzErr text])
                (base fresh_object) /\
    master x' = master fresh_object /\
    params x' = stored_params
                  (mkOptions false false None false [] (Some "broken.world"))
                  (params fresh_object).
Proof.
  apply (@ParseArgs_file_does_not_load example_externals
           ["gzserver"; "broken.world"]
           (mkOptions false false None false [] (Some "broken.world"))
           fresh_object); reflexivity.
Defined.

(** X23: when the world file opens and parses but the physics subsystem
    rejects its world, [ParseArgs] does not return: the exception of
    [LoadImpl] goes through it.  By then the plugins of the command
    line have been added, the parameters stored, the master created and
    started and the plugin, sensor and physics subsystems loaded;
    neither the parameters are acted on nor [Init] is called, and the
    stop flag is as it was. *)
Theorem ParseArgs_world_rejected `{Externals} argv vm x e what :
  command_line_parser argv = Some vm ->
  opt_help vm = false ->
  opt_play vm = None ->
  load_fails (world_source vm) (base x) = false ->
  option_map root_world (sdf.parse (world_source vm) (disk (base x)))
  = Some (Some e) ->
  elem_error e = Some what ->
  exists x',
    ServerObject.ParseArgs argv x
    = Faulted (Exception ("Failed to load the World" ++ endl ++ what)) x' /\
    journal x' =
      journal x ++ map AddPlugin (opt_server_plugin vm)
      ++ map Core ([SdfInit; SdfReadFile (world_source vm)]
                   ++ failed_load_calls (g_next (phys (base x)))) /\
    stop (base x') = stop (base x) /\ master x' = true /\
    params x' = stored_params vm (params x).
Proof.
  intros Hparse Hhelp Hplay Hload Hd Herr.
  destruct (ParseArgs_from_file argv vm x Hparse Hhelp Hplay) as (calls & Ht & Hrun).
  destruct (LoadFile_outcomes (world_source vm) (base x))
    as [(Hf & _)|(_ & d & Hp & Hl)]; [congruence|].
  rewrite Hp in Hd. cbn [option_map] in Hd. injection Hd as Hroot.
  destruct (LoadImpl_rejected d (set_trace (trace (base x)
                                            ++ [SdfInit; SdfReadFile (world_source vm)])
                                   (base x)) e what Hroot Herr)
    as (s' & H' & Ht' & Hs' & Hm' & _).
  rewrite Hl, H' in Ht, Hrun. cbn [final] in Ht.
  rewrite Ht' in Ht. cbn [trace set_trace phys] in Ht.
  rewrite <- app_assoc in Ht. apply app_inv_head in Ht. subst calls.
  eexists. split; [exact Hrun|]. unfold master.
  cbn [journal base params]. rewrite <- !app_assoc.
  repeat split; assumption.
Qed.

Lemma ParseArgs_world_rejected_witness :
  exists x',
    @ServerObject.ParseArgs example_externals ["gzserver"; "rejected.world"]
      (ServerObject.new example_library false true reload_disk)
    = Faulted (Exception ("Failed to load the World" ++ endl
                          ++ "joint without parent")) x' /\
    journal x' =
      journal (ServerObject.new example_library false true reload_disk)
      ++ map AddPlugin (opt_server_plugin
                          (mkOptions false false None false []
                             (Some "rejected.world")))
      ++ map Core ([SdfInit;
                    SdfReadFile (world_source
                                   (mkOptions false false None false []
                                      (Some "rejected.world")))]
                   ++ failed_load_calls
                        (g_next (phys (base (ServerObject.new example_library
                                               false true reload_disk))))) /\
    stop (base x') = stop (base (ServerObject.new example_library false true
                                   reload_disk)) /\
    master x' = true /\
    params x' = stored_params
                  (mkOptions false false None false [] (Some "rejected.world"))
                  (params (ServerObject.new example_library false true
                             reload_disk)).
Proof.
  apply (@ParseArgs_world_rejected example_externals
           ["gzserver"; "rejected.world"]
           (mkOptions false false None false [] (Some "rejected.world"))
           (ServerObject.new example_library false true reload_disk)
           rejected_element "joint without parent"); reflexivity.
Defined.

(** X20: with a recording to play back, the description is the one the
    recording yields at its first step, read as a string: the recording
    is opened and stepped once, no file is read, and a world file named
    on the command line is not looked at.  When that string is a
    description the physics subsystem accepts, the start-up goes
    through as it does from a file. *)
Theorem ParseArgs_plays_back `{Externals} argv vm path x :
  command_line_parser argv = Some vm ->
  opt_help vm = false ->
  opt_play vm = Some path ->
  string_fails (LogPlay_Step path) (base x) = false ->
  string_accepted (LogPlay_Step path) = true ->
  exists d x',
    sdf_readString (LogPlay_Step path) = Some d /\
    ServerObject.ParseArgs argv x = Done true x' /\
    journal x' =
      journal x ++ map AddPlugin (opt_server_plugin vm)
      ++ [LogPlayOpen path; LogPlayStep; Core SdfInit;
          SdfReadString (LogPlay_Step path)]
      ++ map Core (load_calls d (g_next (phys (base x))))
      ++ params_calls (stored_params vm (params x))
      ++ map Core [GazeboInit; SensorsInit; PhysicsInitWorlds] /\
    stop (base x') = false /\ master x' = true.
Proof.
  intros Hparse Hhelp Hplay Hload Hacc.
  rewrite (ParseArgs_prepares argv vm x Hparse Hhelp), Hplay.
  unfold sbind at 1 2 3. unfold call.
  match goal with |- context [ServerObject.LoadString ?t ?x1] =>
    destruct (LoadString_outcomes t x1) as [(Hf & _)|(_ & d & Hd & Hl)] end;
    [cbn [base set_journal] in Hf; congruence|].
  unfold string_accepted in Hacc. rewrite Hd in Hacc.
  rewrite Hl. unfold LoadImpl_calls. rewrite Hacc.
  match goal with |- context [LoadImpl d ?s1] =>
    destruct (LoadImpl_run d s1 Hacc) as (s' & H' & _ & _ & Hm') end.
  rewrite H'. cbn [negb]. exists d.
  match goal with |- context [(ServerObject.ProcessParams ;; _) ?x1] =>
    destruct (after_load x1) as (x' & H'' & Hj & _ & Hm & _ & Hs' & _) end.
  exists x'. split; [exact Hd|]. split; [exact H''|].
  rewrite Hj, Hm. unfold master.
  cbn [journal set_journal params base phys].
  rewrite <- !app_assoc. repeat split; assumption.
Qed.

Lemma ParseArgs_plays_back_witness :
  exists d x',
    @sdf_readString example_externals
      (@LogPlay_Step example_externals "state.log") = Some d /\
    @ServerObject.ParseArgs example_externals
      ["gzserver"; "--play"; "worlds/empty.world"] fresh_object = Done true x' /\
    journal x' =
      journal fresh_object
      ++ map AddPlugin (opt_server_plugin
                          (mkOptions false false (Some "state.log") false []
                             (Some "worlds/empty.world")))
      ++ [LogPlayOpen "state.log"; LogPlayStep; Core SdfInit;
          SdfReadString (@LogPlay_Step example_externals "state.log")]
      ++ map Core (load_calls d (g_next (phys (base fresh_object))))
      ++ @params_calls example_externals
           (stored_params (mkOptions false false (Some "state.log") false []
                             (Some "worlds/empty.world"))
              (params fresh_object))
      ++ map Core [GazeboInit; SensorsInit; PhysicsInitWorlds] /\
    stop (base x') = false /\ master x' = true.
Proof.
  apply (@ParseArgs_plays_back example_externals
           ["gzserver"; "--play"; "worlds/empty.world"]
           (mkOptions false false (Some "state.log") false []
              (Some "worlds/empty.world"))
           "state.log" fresh_object); reflexivity.
Defined.

(** X21: provided the library does not read the word "true" as false
    nor "false" as true, a start-up that goes through pauses or
    un-pauses the worlds exactly once, by the pause option of the
    command line, whatever was stored under "pause" before. *)
Theorem ParseArgs_applies_pause_option `{Externals} argv vm x x' :
  agrees (lexical_cast_bool "true") true = true ->
  agrees (lexical_cast_bool "false") false = true ->
  command_line_parser argv = Some vm ->
  opt_help vm = false ->
  ServerObject.ParseArgs argv x = Done true x' ->
  pauses (journal x') = pauses (journal x) ++ [opt_pause vm].
Proof.
  intros Htrue Hfalse Hparse Hhelp Hrun.
  destruct (ParseArgs_cases argv vm x Hparse Hhelp) as (loading & Hl & _ & _ & Hm).
  rewrite Hrun in Hm. destruct Hm as [Hj _].
  rewrite Hj, !pauses_app, pauses_AddPlugin, Hl, pauses_Core, app_nil_r.
  f_equal. unfold params_calls, stored_params.
  rewrite ParamsFacts.add_neq_o by discriminate.
  rewrite ParamsFacts.add_eq_o by reflexivity.
  rewrite pauses_app.
  assert (Hlog : forall o : option string,
             pauses match o with Some _ => [LoggerStart] | None => [] end = []).
  { intros [?|]; reflexivity. }
  rewrite Hlog. cbn [app]. unfold pause_calls.
  destruct (opt_pause vm).
  - destruct (lexical_cast_bool "true") as [[|]|]; try reflexivity. discriminate.
  - destruct (lexical_cast_bool "false") as [[|]|]; try reflexivity. discriminate.
Qed.

Lemma ParseArgs_applies_pause_option_witness :
  pauses (journal (outcome (@ServerObject.ParseArgs example_externals
                              ["gzserver"; "--pause"]
                              (set_params (Params.add "pause" "false"
                                             (Params.empty string))
                                 fresh_object))))
  = pauses (journal (set_params (Params.add "pause" "false" (Params.empty string))
                       fresh_object))
    ++ [opt_pause (mkOptions false false None true [] None)].
Proof.
  apply (@ParseArgs_applies_pause_option example_externals
           ["gzserver"; "--pause"]
           (mkOptions false false None true [] None)
           (set_params (Params.add "pause" "false" (Params.empty string))
              fresh_object));
    vm_compute; reflexivity.
Defined.
